(** * skinview3d: texture-atlas mapping, skeleton and accessory models

    A shallow embedding of the geometry / texture core of skinview3d
    ([model.ts], in its extended revision with face rotation and nine
    accessory slots, and the skin utilities [copyImage], [hasTransparency],
    [convertSkinTo1_8], [isSlimSkin]), and of two parts of the viewer
    ([viewer.ts]): the camera distance and the render loop.

    Number domains:
    - atlas and UV arithmetic, box dimensions and document coordinates are
      exact rationals ([Q]); JSON number literals are rationals and the code
      only adds, subtracts, multiplies, divides and takes absolute values;
    - poses of scene-graph objects (position, Euler rotation, quaternion,
      scale) are reals ([R]), because element rotation goes through
      [Math.PI], [Math.sin] and [Math.cos];
    - pixel coordinates and colour channels are integers ([Z]).
    Floating-point rounding is not modelled. *)

From Stdlib Require Import ZArith QArith Qminmax Qabs Qround Reals Lqa Lra Lia List String.
From stdpp Require Import base list.
Import ListNotations.

(* ===================================================================== *)
(** * Face-UV projector (setUVs, setSkinUVs, setCapeUVs, setJsonUVs)      *)
(* ===================================================================== *)

Module Projector.
Open Scope Q_scope.

Record Vector2 := mkVector2 { v2x : Q; v2y : Q }.

(** The four-entry array literal built by the local [toFaceVertices] of
    [setUVs]; [q0] .. [q3] are its indices 0 .. 3. *)
Record Quad := mkQuad { q0 : Vector2; q1 : Vector2; q2 : Vector2; q3 : Vector2 }.

Definition toFaceVertices (textureWidth textureHeight x1 y1 x2 y2 : Q) : Quad :=
  mkQuad (mkVector2 (x1 / textureWidth) (1 - y2 / textureHeight))
         (mkVector2 (x2 / textureWidth) (1 - y2 / textureHeight))
         (mkVector2 (x2 / textureWidth) (1 - y1 / textureHeight))
         (mkVector2 (x1 / textureWidth) (1 - y1 / textureHeight)).

(** [setUVs]: the new contents of [box.attributes.uv], 24 vectors, four per
    face in the order right, left, top, bottom, front, back. *)
Definition setUVs (u v width height depth textureWidth textureHeight : Q)
  : list Vector2 :=
  let tfv := toFaceVertices textureWidth textureHeight in
  let top := tfv (u + depth) v (u + width + depth) (v + depth) in
  let bottom := tfv (u + width + depth) v (u + width * 2 + depth) (v + depth) in
  let left := tfv u (v + depth) (u + depth) (v + depth + height) in
  let front := tfv (u + depth) (v + depth) (u + width + depth) (v + depth + height) in
  let right := tfv (u + width + depth) (v + depth) (u + width + depth * 2) (v + height + depth) in
  let back := tfv (u + width + depth * 2) (v + depth) (u + width * 2 + depth * 2) (v + height + depth) in
  [ q3 right; q2 right; q0 right; q1 right;
    q3 left; q2 left; q0 left; q1 left;
    q3 top; q2 top; q0 top; q1 top;
    q0 bottom; q1 bottom; q3 bottom; q2 bottom;
    q3 front; q2 front; q0 front; q1 front;
    q3 back; q2 back; q0 back; q1 back ].

Definition setSkinUVs (u v width height depth : Q) : list Vector2 :=
  setUVs u v width height depth 64 64.

Definition setCapeUVs (u v width height depth : Q) : list Vector2 :=
  setUVs u v width height depth 64 32.

(** ** Reading a UV attribute back in pixel space *)

(** Axis-aligned pixel rectangle, [rx1 <= rx2] and [ry1 <= ry2] when built by
    [bbox]. *)
Record Rect := mkRect { rx1 : Q; ry1 : Q; rx2 : Q; ry2 : Q }.

(** Un-normalising a UV vertex: multiply back by the texture size and undo
    the flip of the v axis. *)
Definition toPixel (textureWidth textureHeight : Q) (p : Vector2) : Vector2 :=
  mkVector2 (v2x p * textureWidth) ((1 - v2y p) * textureHeight).

Definition bbox4 (a b c d : Vector2) : Rect :=
  mkRect (Qmin (Qmin (v2x a) (v2x b)) (Qmin (v2x c) (v2x d)))
         (Qmin (Qmin (v2y a) (v2y b)) (Qmin (v2y c) (v2y d)))
         (Qmax (Qmax (v2x a) (v2x b)) (Qmax (v2x c) (v2x d)))
         (Qmax (Qmax (v2y a) (v2y b)) (Qmax (v2y c) (v2y d))).

(** The uv attribute holds one quadrilateral per face, four consecutive
    entries each; [faceRects] is the list of their pixel-space bounding
    boxes. *)
Fixpoint faceRects (textureWidth textureHeight : Q) (uv : list Vector2) : list Rect :=
  match uv with
  | a :: b :: c :: d :: rest =>
      let px := toPixel textureWidth textureHeight in
      bbox4 (px a) (px b) (px c) (px d) :: faceRects textureWidth textureHeight rest
  | _ => []
  end.

Definition Qlt_bool (a b : Q) : bool := negb (Qle_bool b a).

(** Containment of a rectangle in the [tw] x [th] canvas. *)
Definition inCanvas (tw th : Q) (r : Rect) : bool :=
  Qle_bool 0 (rx1 r) && Qle_bool (rx2 r) tw && Qle_bool 0 (ry1 r) && Qle_bool (ry2 r) th.

(** Two rectangles overlap when they share interior points (faces of the
    unfolding share edges, which is not an overlap). *)
Definition overlap (r s : Rect) : bool :=
  Qlt_bool (rx1 r) (rx2 s) && Qlt_bool (rx1 s) (rx2 r) &&
  Qlt_bool (ry1 r) (ry2 s) && Qlt_bool (ry1 s) (ry2 r).

Fixpoint pairwiseDisjoint (rs : list Rect) : bool :=
  match rs with
  | [] => true
  | r :: rest => forallb (fun s => negb (overlap r s)) rest && pairwiseDisjoint rest
  end.

(** Equality of rectangles up to the representation of their rational
    coordinates. *)
Definition rectEquiv (r s : Rect) : Prop :=
  rx1 r == rx1 s /\ ry1 r == ry1 s /\ rx2 r == rx2 s /\ ry2 r == ry2 s.

(** The pixel rectangles of the cross-unfolding, in the order of the uv
    attribute: right, left, top, bottom, front, back. *)
Definition unfolding (u v width height depth : Q) : list Rect :=
  [ mkRect (u + width + depth) (v + depth) (u + width + depth * 2) (v + height + depth);
    mkRect u (v + depth) (u + depth) (v + depth + height);
    mkRect (u + depth) v (u + width + depth) (v + depth);
    mkRect (u + width + depth) v (u + width * 2 + depth) (v + depth);
    mkRect (u + depth) (v + depth) (u + width + depth) (v + depth + height);
    mkRect (u + width + depth * 2) (v + depth) (u + width * 2 + depth * 2) (v + height + depth) ].

(** ** Free-form mode (setJsonUVs of the copy of the model file with
    [rotateArray], the one the viewer's nine-slot player object belongs to) *)

(** One declared face: [uv: [x1, y1, x2, y2]] and an optional rotation in
    degrees ([None] is JavaScript's [undefined]). *)
Record Face := mkFace { uv : Q * Q * Q * Q; rotation : option Q }.

Record FaceUVs := mkFaceUVs {
  north : Face; east : Face; south : Face; west : Face; up : Face; down : Face }.

(** [rotateArray(arr, shift)]: [arr[i] = original[(i + shift) % arr.length]].
    JavaScript's [%] truncates ([Z.rem]); a negative index reads
    [undefined], which is [None] here. *)
Definition rotateArray {T : Type} (arr : list T) (shift : Z) : list (option T) :=
  let original := arr in
  map (fun i : nat =>
         let k := Z.rem (Z.of_nat i + shift) (Z.of_nat (length arr)) in
         if (k <? 0)%Z then None else original !! Z.to_nat k)
      (seq 0 (length arr)).

(** The local [toFaceVertices] of [setJsonUVs]. *)
Definition unrotatedFaceVertices (face : Face) : list Vector2 :=
  let '(uv0, uv1, uv2, uv3) := uv face in
  [ mkVector2 (uv0 / 16) (1 - uv3 / 16);
    mkVector2 (uv2 / 16) (1 - uv3 / 16);
    mkVector2 (uv2 / 16) (1 - uv1 / 16);
    mkVector2 (uv0 / 16) (1 - uv1 / 16) ].

Definition jsonFaceVertices (face : Face) : list (option Vector2) :=
  let result := unrotatedFaceVertices face in
  let rotation := match rotation face with None => 0 | Some r => r end in
  rotateArray result (Qfloor (rotation / 90)).

(** [arr[i]] of a rotated face; [None] is [undefined]. *)
Definition entry (arr : list (option Vector2)) (i : nat) : option Vector2 :=
  mjoin (arr !! i).

(** [BufferAttribute.copyVector2sArray] of three.js r136: an [undefined]
    entry is reported on the console and replaced by a fresh [Vector2],
    which is (0, 0). *)
Definition copyVector2sArray (vectors : list (option Vector2)) : list Vector2 :=
  map (default (mkVector2 0 0)) vectors.

(** [setJsonUVs]: the new uv attribute, four entries per face in the order
    east, west, up, down, south, north. *)
Definition setJsonUVs (faceUVs : FaceUVs) : list Vector2 :=
  let nth := jsonFaceVertices (north faceUVs) in
  let est := jsonFaceVertices (east faceUVs) in
  let sth := jsonFaceVertices (south faceUVs) in
  let wst := jsonFaceVertices (west faceUVs) in
  let up := jsonFaceVertices (up faceUVs) in
  let down := jsonFaceVertices (down faceUVs) in
  copyVector2sArray
    [ entry est 3; entry est 2; entry est 0; entry est 1;
      entry wst 3; entry wst 2; entry wst 0; entry wst 1;
      entry up 3; entry up 2; entry up 0; entry up 1;
      entry down 3; entry down 2; entry down 0; entry down 1;
      entry sth 3; entry sth 2; entry sth 0; entry sth 1;
      entry nth 3; entry nth 2; entry nth 0; entry nth 1 ].

(** The earlier copy of [model.ts] has a [setJsonUVs] without face
    rotation: its [toFaceVertices] reads only [uv], and the down face is
    written in the order 0, 1, 3, 2. *)
Definition setJsonUVs_earlier (faceUVs : FaceUVs) : list Vector2 :=
  let toFaceVertices (face : Face) :=
    let '(uvs0, uvs1, uvs2, uvs3) := uv face in
    mkQuad (mkVector2 (uvs0 / 16) (1 - uvs3 / 16))
           (mkVector2 (uvs2 / 16) (1 - uvs3 / 16))
           (mkVector2 (uvs2 / 16) (1 - uvs1 / 16))
           (mkVector2 (uvs0 / 16) (1 - uvs1 / 16)) in
  let nth := toFaceVertices (north faceUVs) in
  let est := toFaceVertices (east faceUVs) in
  let sth := toFaceVertices (south faceUVs) in
  let wst := toFaceVertices (west faceUVs) in
  let up := toFaceVertices (up faceUVs) in
  let down := toFaceVertices (down faceUVs) in
  [ q3 est; q2 est; q0 est; q1 est;
    q3 wst; q2 wst; q0 wst; q1 wst;
    q3 up; q2 up; q0 up; q1 up;
    q0 down; q1 down; q3 down; q2 down;
    q3 sth; q2 sth; q0 sth; q1 sth;
    q3 nth; q2 nth; q0 nth; q1 nth ].

(** ** The region a declared face samples *)

(** The rectangle of the 16 x 16 face space that a face declares, with its
    corners put in order. *)
Definition declaredRect (face : Face) : Rect :=
  let '(x1, y1, x2, y2) := uv face in
  mkRect (Qmin x1 x2) (Qmin y1 y2) (Qmax x1 x2) (Qmax y1 y2).

(** The rotations for which [rotateArray] reads no [undefined]: none
    declared, or a non-negative one. *)
Definition rotationDefined (face : Face) : bool :=
  match rotation face with None => true | Some r => Qle_bool 0 r end.

End Projector.

(* ===================================================================== *)
(** * Atlas region transform, legacy upgrade and slim detector             *)
(* ===================================================================== *)

Module Atlas.
Open Scope Z_scope.

(** One RGBA pixel; channels are bytes. *)
Record Pixel := mkPixel { pr : Z; pg : Z; pb : Z; pa : Z }.

Definition transparentBlack : Pixel := mkPixel 0 0 0 0.

(** A 2D canvas context: the bitmap of a [cwidth] x [cheight] canvas.  The
    bitmap function is only consulted inside the canvas. *)
Record Canvas := mkCanvas { cwidth : Z; cheight : Z; bitmap : Z -> Z -> Pixel }.

Definition inside (c : Canvas) (x y : Z) : bool :=
  (0 <=? x) && (x <? cwidth c) && (0 <=? y) && (y <? cheight c).

(** What the canvas API reads at (x, y): pixels outside the canvas are
    transparent black. *)
Definition pixelAt (c : Canvas) (x y : Z) : Pixel :=
  if inside c x y then bitmap c x y else transparentBlack.

(** [ImageData]: [data] is the Uint8ClampedArray, four bytes per pixel,
    row-major. *)
Record ImageData := mkImageData { iwidth : Z; iheight : Z; data : list Z }.

Definition pixelBytes (p : Pixel) : list Z := [pr p; pg p; pb p; pa p].

(** [0, 1, ..., n-1], empty when [n <= 0]. *)
Definition range (n : Z) : list Z := seqZ 0 n.

(** [context.getImageData(sx, sy, sw, sh)]; [None] is the IndexSizeError
    thrown for an empty rectangle.  A negative extent denotes the rectangle
    on the other side of the corner. *)
Definition getImageData (c : Canvas) (sx sy sw sh : Z) : option ImageData :=
  if (sw =? 0) || (sh =? 0) then None
  else
    let x0 := Z.min sx (sx + sw) in
    let y0 := Z.min sy (sy + sh) in
    Some (mkImageData (Z.abs sw) (Z.abs sh)
            (flat_map (fun j => flat_map (fun i => pixelBytes (pixelAt c (x0 + i) (y0 + j)))
                                         (range (Z.abs sw)))
                      (range (Z.abs sh)))).

(** [arr[i]] on a typed array: [None] is [undefined] (index out of range). *)
Definition zget (d : list Z) (i : Z) : option Z :=
  if i <? 0 then None else d !! Z.to_nat i.

(** [arr[i] = v] on a Uint8ClampedArray: ignored out of range; [undefined]
    is stored as 0. *)
Definition zset (d : list Z) (i : Z) (v : option Z) : list Z :=
  if i <? 0 then d else <[ Z.to_nat i := default 0 v ]> d.

(** The pixel of an [ImageData] at column [i], row [j]. *)
Definition imagePixel (img : ImageData) (i j : Z) : Pixel :=
  let k := (i + j * iwidth img) * 4 in
  mkPixel (default 0 (zget (data img) k)) (default 0 (zget (data img) (k + 1)))
          (default 0 (zget (data img) (k + 2))) (default 0 (zget (data img) (k + 3))).

(** [context.putImageData(img, dx, dy)]: only pixels of the canvas are
    written. *)
Definition putImageData (c : Canvas) (img : ImageData) (dx dy : Z) : Canvas :=
  mkCanvas (cwidth c) (cheight c)
    (fun x y =>
       if (dx <=? x) && (x <? dx + iwidth img) && (dy <=? y) && (y <? dy + iheight img)
       then imagePixel img (x - dx) (y - dy)
       else bitmap c x y).

(** Body of the inner loop of [copyImage]: swap the pixels at columns [x]
    and [w - x - 1] of row [y]. *)
Definition swapStep (w y : Z) (d : list Z) (x : Z) : list Z :=
  let index := (x + y * w) * 4 in
  let index2 := ((w - x - 1) + y * w) * 4 in
  let pA1 := zget d index in
  let pA2 := zget d (index + 1) in
  let pA3 := zget d (index + 2) in
  let pA4 := zget d (index + 3) in
  let pB1 := zget d index2 in
  let pB2 := zget d (index2 + 1) in
  let pB3 := zget d (index2 + 2) in
  let pB4 := zget d (index2 + 3) in
  let d := zset d index pB1 in
  let d := zset d (index + 1) pB2 in
  let d := zset d (index + 2) pB3 in
  let d := zset d (index + 3) pB4 in
  let d := zset d index2 pA1 in
  let d := zset d (index2 + 1) pA2 in
  let d := zset d (index2 + 2) pA3 in
  zset d (index2 + 3) pA4.

(** [for (x = 0; x < w / 2; x++)]: [w / 2] is not rounded in the source, so
    the loop runs for the integers [0 <= x < w / 2]; there are
    [(w + 1) / 2] of them, rounded down. *)
Definition flipRow (w : Z) (d : list Z) (y : Z) : list Z :=
  fold_left (swapStep w y) (range ((w + 1) / 2)) d.

Definition flipRows (w h : Z) (d : list Z) : list Z :=
  fold_left (flipRow w) (range h) d.

Definition copyImage (context : Canvas) (sX sY w h dX dY : Z) (flipHorizontal : bool)
  : option Canvas :=
  match getImageData context sX sY w h with
  | None => None
  | Some imgData =>
      let imgData :=
        if flipHorizontal
        then mkImageData (iwidth imgData) (iheight imgData) (flipRows w h (data imgData))
        else imgData in
      Some (putImageData context imgData dX dY)
  end.

(** [x !== 0xff] for an array read. *)
Definition notFF (v : option Z) : bool :=
  match v with Some b => negb (b =? 255) | None => true end.

(** [hasTransparency]: the nested loops return at the first hit, which is
    what the short-circuiting [existsb] computes. *)
Definition hasTransparency (context : Canvas) (x0 y0 w h : Z) : option bool :=
  match getImageData context x0 y0 w h with
  | None => None
  | Some imgData =>
      Some (existsb (fun x =>
              existsb (fun y =>
                let offset := (x + y * w) * 4 in
                notFF (zget (data imgData) (offset + 3)))
                (range h))
              (range w))
  end.

(** [width / 64.0].  The model takes the scale to be integral: it is exact
    for widths that are multiples of 64. *)
Definition computeSkinScale (width : Z) : Z := width / 64.

Definition bindCanvas (c : option Canvas) (f : Canvas -> option Canvas) : option Canvas :=
  match c with Some c' => f c' | None => None end.

Definition convertSkinTo1_8 (skinContext : Canvas) (width : Z) : option Canvas :=
  let scale := computeSkinScale width in
  let copySkin sX sY w h dX dY flipHorizontal (skinContext : Canvas) :=
    copyImage skinContext (sX * scale) (sY * scale) (w * scale) (h * scale)
              (dX * scale) (dY * scale) flipHorizontal in
  bindCanvas (copySkin 4 16 4 4 20 48 true skinContext) (fun c =>  (* Top Leg *)
  bindCanvas (copySkin 8 16 4 4 24 48 true c) (fun c =>            (* Bottom Leg *)
  bindCanvas (copySkin 0 20 4 12 24 52 true c) (fun c =>           (* Outer Leg *)
  bindCanvas (copySkin 4 20 4 12 20 52 true c) (fun c =>           (* Front Leg *)
  bindCanvas (copySkin 8 20 4 12 16 52 true c) (fun c =>           (* Inner Leg *)
  bindCanvas (copySkin 12 20 4 12 28 52 true c) (fun c =>          (* Back Leg *)
  bindCanvas (copySkin 44 16 4 4 36 48 true c) (fun c =>           (* Top Arm *)
  bindCanvas (copySkin 48 16 4 4 40 48 true c) (fun c =>           (* Bottom Arm *)
  bindCanvas (copySkin 40 20 4 12 40 52 true c) (fun c =>          (* Outer Arm *)
  bindCanvas (copySkin 44 20 4 12 36 52 true c) (fun c =>          (* Front Arm *)
  bindCanvas (copySkin 48 20 4 12 32 52 true c) (fun c =>          (* Inner Arm *)
  copySkin 52 20 4 12 44 52 true c))))))))))).                     (* Back Arm *)

(** [a || b] where either side may throw: [b] is evaluated only when [a] is
    [false]. *)
Definition orElse (a : option bool) (b : option bool) : option bool :=
  match a with
  | Some false => b
  | r => r
  end.

Definition isSlimSkin (skinContext : Canvas) (width : Z) : option bool :=
  let scale := computeSkinScale width in
  let checkArea x y w h :=
    hasTransparency skinContext (x * scale) (y * scale) (w * scale) (h * scale) in
  orElse (checkArea 50 16 2 4)
    (orElse (checkArea 54 20 2 12)
       (orElse (checkArea 42 48 2 4)
          (checkArea 46 52 2 12))).

(** The twelve copy rules of the legacy upgrade at scale 1:
    (sX, sY, w, h, dX, dY). *)
Definition upgradeRules : list (Z * Z * Z * Z * Z * Z) :=
  [ (4, 16, 4, 4, 20, 48); (8, 16, 4, 4, 24, 48); (0, 20, 4, 12, 24, 52);
    (4, 20, 4, 12, 20, 52); (8, 20, 4, 12, 16, 52); (12, 20, 4, 12, 28, 52);
    (44, 16, 4, 4, 36, 48); (48, 16, 4, 4, 40, 48); (40, 20, 4, 12, 40, 52);
    (44, 20, 4, 12, 36, 52); (48, 20, 4, 12, 32, 52); (52, 20, 4, 12, 44, 52) ].

(** The four probe rectangles of the slim detector at scale 1: (x, y, w, h). *)
Definition probeRegions : list (Z * Z * Z * Z) :=
  [ (50, 16, 2, 4); (54, 20, 2, 12); (42, 48, 2, 4); (46, 52, 2, 12) ].

(** A pixel of probe region [r], scaled by [k], whose alpha channel is not
    0xff. *)
Definition transparentIn (c : Canvas) (k : Z) (r : Z * Z * Z * Z) : Prop :=
  let '(x0, y0, w, h) := r in
  exists x y, x0 * k <= x < x0 * k + w * k /\ y0 * k <= y < y0 * k + h * k /\
              pa (pixelAt c x y) <> 255.

(** Whether (x, y) lies in the destination rectangle of a copy rule at
    scale [k]. *)
Definition inDestination (k x y : Z) (rule : Z * Z * Z * Z * Z * Z) : bool :=
  let '(sX, sY, w, h, dX, dY) := rule in
  (dX * k <=? x) && (x <? dX * k + w * k) && (dY * k <=? y) && (y <? dY * k + h * k).

End Atlas.

(* ===================================================================== *)
(** * The parts of three.js (r136, the release pinned by package.json)     *)
(** * that the model code calls                                            *)
(* ===================================================================== *)

Module Three.

(** ** Poses: Vector3, Quaternion, the rotation part of Matrix4 *)

Section Poses.
Open Scope R_scope.

Record Vector3 := mkVector3 { vx : R; vy : R; vz : R }.

Record Quaternion := mkQuaternion { qx : R; qy : R; qz : R; qw : R }.

Definition zeroVector : Vector3 := mkVector3 0 0 0.

(** The quaternion of a freshly constructed Object3D. *)
Definition identityQuaternion : Quaternion := mkQuaternion 0 0 0 1.

Definition sub (a b : Vector3) : Vector3 :=
  mkVector3 (vx a - vx b) (vy a - vy b) (vz a - vz b).

Definition add (a b : Vector3) : Vector3 :=
  mkVector3 (vx a + vx b) (vy a + vy b) (vz a + vz b).

(** [Quaternion.setFromAxisAngle]; the library assumes, and does not check,
    that [axis] is normalised. *)
Definition setFromAxisAngle (axis : Vector3) (angle : R) : Quaternion :=
  let halfAngle := angle / 2 in
  let s := sin halfAngle in
  mkQuaternion (vx axis * s) (vy axis * s) (vz axis * s) (cos halfAngle).

(** [Vector3.applyQuaternion]: quat * vector * inverse quat, written out. *)
Definition applyQuaternion (v : Vector3) (q : Quaternion) : Vector3 :=
  let x := vx v in let y := vy v in let z := vz v in
  let qx := qx q in let qy := qy q in let qz := qz q in let qw := qw q in
  let ix := qw * x + qy * z - qz * y in
  let iy := qw * y + qz * x - qx * z in
  let iz := qw * z + qx * y - qy * x in
  let iw := - qx * x - qy * y - qz * z in
  mkVector3 (ix * qw + iw * - qx + iy * - qz - iz * - qy)
            (iy * qw + iw * - qy + iz * - qx - ix * - qz)
            (iz * qw + iw * - qz + ix * - qy - iy * - qx).

Definition applyAxisAngle (v axis : Vector3) (angle : R) : Vector3 :=
  applyQuaternion v (setFromAxisAngle axis angle).

Definition multiplyQuaternions (a b : Quaternion) : Quaternion :=
  let qax := qx a in let qay := qy a in let qaz := qz a in let qaw := qw a in
  let qbx := qx b in let qby := qy b in let qbz := qz b in let qbw := qw b in
  mkQuaternion (qax * qbw + qaw * qbx + qay * qbz - qaz * qby)
               (qay * qbw + qaw * qby + qaz * qbx - qax * qbz)
               (qaz * qbw + qaw * qbz + qax * qby - qay * qbx)
               (qaw * qbw - qax * qbx - qay * qby - qaz * qbz).

(** [Object3D.rotateOnAxis], as the new value of [object.quaternion]. *)
Definition rotateOnAxis (quaternion : Quaternion) (axis : Vector3) (angle : R) : Quaternion :=
  multiplyQuaternions quaternion (setFromAxisAngle axis angle).

(** The rotation block that [Matrix4.compose] builds from a quaternion
    (unit scale), rows first. *)
Definition rotationMatrix (q : Quaternion) : list (list R) :=
  let x := qx q in let y := qy q in let z := qz q in let w := qw q in
  let x2 := x + x in let y2 := y + y in let z2 := z + z in
  let xx := x * x2 in let xy := x * y2 in let xz := x * z2 in
  let yy := y * y2 in let yz := y * z2 in let zz := z * z2 in
  let wx := w * x2 in let wy := w * y2 in let wz := w * z2 in
  [ [ 1 - (yy + zz); xy - wz; xz + wy ];
    [ xy + wz; 1 - (xx + zz); yz - wx ];
    [ xz - wy; yz + wx; 1 - (xx + yy) ] ].

Definition identityMatrix : list (list R) :=
  [ [ 1; 0; 0 ]; [ 0; 1; 0 ]; [ 0; 0; 1 ] ].

(** [Vector3.applyMatrix4] with the matrix that [Object3D.updateMatrix]
    composes from a position, a quaternion and the unit scale: where a
    point of the object's own space lies in the space of its parent. *)
Definition localToParent (position : Vector3) (quaternion : Quaternion) (v : Vector3)
  : Vector3 :=
  match rotationMatrix quaternion with
  | [ [ m11; m12; m13 ]; [ m21; m22; m23 ]; [ m31; m32; m33 ] ] =>
      mkVector3 (m11 * vx v + m12 * vy v + m13 * vz v + vx position)
                (m21 * vx v + m22 * vy v + m23 * vz v + vy position)
                (m31 * vx v + m32 * vy v + m33 * vz v + vz position)
  | _ => v
  end.

(** The rotation blocks of [Matrix4.makeRotationX], [makeRotationY] and
    [makeRotationZ], rows first. *)
Definition makeRotationX (theta : R) : list (list R) :=
  let c := cos theta in let s := sin theta in
  [ [ 1; 0; 0 ]; [ 0; c; - s ]; [ 0; s; c ] ].

Definition makeRotationY (theta : R) : list (list R) :=
  let c := cos theta in let s := sin theta in
  [ [ c; 0; s ]; [ 0; 1; 0 ]; [ - s; 0; c ] ].

Definition makeRotationZ (theta : R) : list (list R) :=
  let c := cos theta in let s := sin theta in
  [ [ c; - s; 0 ]; [ s; c; 0 ]; [ 0; 0; 1 ] ].

(** [Vector3.length] and [Vector3.multiplyScalar]. *)
Definition vectorLength (v : Vector3) : R :=
  sqrt (vx v * vx v + vy v * vy v + vz v * vz v).

Definition multiplyScalar (v : Vector3) (scalar : R) : Vector3 :=
  mkVector3 (vx v * scalar) (vy v * scalar) (vz v * scalar).

End Poses.

(** ** BoxGeometry: vertex positions in the geometry's own space *)

Section Geometry.
Open Scope Q_scope.

Record Point := mkPoint { px : Q; py : Q; pz : Q }.

Inductive Axis := AxisX | AxisY | AxisZ.

Definition setComponent (a : Axis) (c : Q) (p : Point) : Point :=
  match a with
  | AxisX => mkPoint c (py p) (pz p)
  | AxisY => mkPoint (px p) c (pz p)
  | AxisZ => mkPoint (px p) (py p) c
  end.

(** [buildPlane] of BoxGeometry with one segment per side: the four
    corners of one face, rows [iy = 0, 1], columns [ix = 0, 1]. *)
Definition buildPlane (u v w : Axis) (udir vdir width height depth : Q) : list Point :=
  let gridX := 1 in
  let gridY := 1 in
  let segmentWidth := width / gridX in
  let segmentHeight := height / gridY in
  let widthHalf := width / 2 in
  let heightHalf := height / 2 in
  let depthHalf := depth / 2 in
  flat_map (fun iy : Q =>
    let y := iy * segmentHeight - heightHalf in
    map (fun ix : Q =>
      let x := ix * segmentWidth - widthHalf in
      setComponent w depthHalf
        (setComponent v (y * vdir)
           (setComponent u (x * udir) (mkPoint 0 0 0))))
      [0; 1])
    [0; 1].

Record BoxGeometry := mkBoxGeometry {
  parameters : Q * Q * Q;        (* width, height, depth *)
  vertices : list Point;         (* attributes.position *)
}.

Definition newBoxGeometry (width height depth : Q) : BoxGeometry :=
  mkBoxGeometry (width, height, depth)
    (buildPlane AxisZ AxisY AxisX (-1) (-1) depth height width       (* px *)
     ++ buildPlane AxisZ AxisY AxisX 1 (-1) depth height (- width)   (* nx *)
     ++ buildPlane AxisX AxisZ AxisY 1 1 width depth height          (* py *)
     ++ buildPlane AxisX AxisZ AxisY 1 (-1) width depth (- height)   (* ny *)
     ++ buildPlane AxisX AxisY AxisZ 1 (-1) width height depth       (* pz *)
     ++ buildPlane AxisX AxisY AxisZ (-1) (-1) width height (- depth)). (* nz *)

(** [BufferGeometry.translate]. *)
Definition translate (g : BoxGeometry) (x y z : Q) : BoxGeometry :=
  mkBoxGeometry (parameters g)
    (map (fun p => mkPoint (px p + x) (py p + y) (pz p + z)) (vertices g)).

(** [computeBoundingBox]: componentwise minimum and maximum of the vertex
    positions; [None] for a geometry without vertices. *)
Definition boundingBox (g : BoxGeometry) : option (Point * Point) :=
  match vertices g with
  | [] => None
  | p :: ps =>
      Some (fold_left (fun m q => mkPoint (Qmin (px m) (px q)) (Qmin (py m) (py q)) (Qmin (pz m) (pz q))) ps p,
            fold_left (fun m q => mkPoint (Qmax (px m) (px q)) (Qmax (py m) (py q)) (Qmax (pz m) (pz q))) ps p)
  end.

(** [Box3.getCenter] and [Box3.getSize]. *)
Definition boxCenter (b : Point * Point) : Point :=
  let '(lo, hi) := b in
  mkPoint ((px lo + px hi) * (1#2)) ((py lo + py hi) * (1#2)) ((pz lo + pz hi) * (1#2)).

Definition boxSize (b : Point * Point) : Point :=
  let '(lo, hi) := b in
  mkPoint (px hi - px lo) (py hi - py lo) (pz hi - pz lo).

Definition pointEq (p q : Point) : Prop :=
  px p == px q /\ py p == py q /\ pz p == pz q.

End Geometry.

End Three.

(* ===================================================================== *)
(** * The scene model: skeleton, accessories, declarative cuboid models    *)
(* ===================================================================== *)

Module Model.
Import Projector Three.

(** A texture handle; textures are opaque to the model code. *)
Record Texture := mkTexture { textureId : nat }.

(** ** Declarative cuboid-model documents *)

Record ElementRotation := mkElementRotation {
  rot_angle : Q;                 (* degrees *)
  rot_axis : string;
  rot_origin : Q * Q * Q }.

Record Element := mkElement {
  el_from : Q * Q * Q;
  el_to : Q * Q * Q;
  el_rotation : option ElementRotation;     (* [None]: undefined *)
  el_faces : FaceUVs }.

(** [elements] is [None] when the document has no such field. *)
Record Document := mkDocument { elements : option (list Element) }.

(** A [Mesh] as far as [updateModel] touches it: its geometry, the uv
    attribute of that geometry, its texture, and its pose. *)
Record Mesh := mkMesh {
  mesh_geometry : BoxGeometry;
  mesh_uv : list Vector2;
  mesh_map : Texture;
  mesh_position : Vector3;
  mesh_quaternion : Quaternion }.

Definition toVector3 (a : Q * Q * Q) : Vector3 :=
  let '(x, y, z) := a in mkVector3 (Q2R x) (Q2R y) (Q2R z).

(** The [switch (axisStr)] of [updateModel]. *)
Definition axisVector (axisStr : string) : Vector3 :=
  if String.eqb axisStr "x" then mkVector3 1 0 0
  else if String.eqb axisStr "y" then mkVector3 0 1 0
  else if String.eqb axisStr "z" then mkVector3 0 0 1
  else mkVector3 0 0 0.

(** One iteration of the loop of [updateModel]: the mesh built for
    [element]. *)
Definition elementMesh (texture : Texture) (element : Element) : Mesh :=
  let '(from0, from1, from2) := el_from element in
  let '(to0, to1, to2) := el_to element in
  let xDif := (to0 - from0)%Q in
  let yDif := (to1 - from1)%Q in
  let zDif := (to2 - from2)%Q in
  let xPos := from0 in
  let yPos := from1 in
  let zPos := from2 in
  let box := newBoxGeometry (Qabs xDif) (Qabs yDif) (Qabs zDif) in
  let hXdif := (0.5 * xDif)%Q in
  let hYdif := (0.5 * yDif)%Q in
  let hZdif := (0.5 * zDif)%Q in
  let box := translate box hXdif hYdif hZdif in
  let box := translate box xPos yPos zPos in
  let uv := setJsonUVs (el_faces element) in
  let mesh := mkMesh box uv texture zeroVector identityQuaternion in
  match el_rotation element with
  | None => mesh
  | Some rotation =>
      let angle := (Q2R (rot_angle rotation) * PI / 180)%R in
      let axis := axisVector (rot_axis rotation) in
      let pivot := toVector3 (rot_origin rotation) in
      let position := sub (mesh_position mesh) pivot in
      let position := applyAxisAngle position axis angle in
      let position := add position pivot in
      let quaternion := rotateOnAxis (mesh_quaternion mesh) axis angle in
      mkMesh (mesh_geometry mesh) (mesh_uv mesh) (mesh_map mesh) position quaternion
  end.

(** [updateModel(json, texture)] on a group with children [children]: the
    children afterwards.  [json = None] is a null or undefined document. *)
Definition updateModel (children : list Mesh) (json : option Document) (texture : Texture)
  : list Mesh :=
  match json with
  | None => children
  | Some doc =>
      match elements doc with
      | None => children
      | Some els =>
          foldl (fun children element => children ++ [elementMesh texture element])
                children els
      end
  end.

Record JsonModelObject := mkJsonModelObject {
  jm_name : string;
  jm_position : Vector3;
  jm_rotation : Vector3;          (* Euler angles x, y, z *)
  jm_visible : bool;
  jm_children : list Mesh }.

(** [new JsonModelObject(texture, json)]. *)
Definition newJsonModelObject (texture : Texture) (json : option Document)
  : JsonModelObject :=
  mkJsonModelObject "" zeroVector zeroVector true (updateModel [] json texture).

(** ** The avatar skeleton: the arms and the slim toggle *)

Inductive ModelType := ModelDefault | ModelSlim.

(** One layer of an arm: the scale of its mesh and the uv attribute of its
    unit box. *)
Record ArmLayer := mkArmLayer { layer_scale : Vector3; layer_uv : list Vector2 }.

(** The part of a [SkinObject] that changes after construction: the slim
    flag, both layers and the pivot position of each arm, and the accessory
    objects added to the head. *)
Record SkinObject := mkSkinObject {
  slim : bool;
  rightArmMesh : ArmLayer;
  rightArm2Mesh : ArmLayer;
  rightArmPivot : Vector3;
  leftArmMesh : ArmLayer;
  leftArm2Mesh : ArmLayer;
  leftArmPivot : Vector3;
  headChildren : list JsonModelObject }.

Definition armWidth (s : SkinObject) : Q := if slim s then 3%Q else 4%Q.

(** The six closures pushed on [modelListeners], in push order. *)
Definition modelListeners : list (SkinObject -> SkinObject) :=
  [ (fun s => mkSkinObject (slim s)
       (mkArmLayer (mkVector3 (if slim s then 3 else 4) 12 4) (setSkinUVs 40 16 (armWidth s) 12 4))
       (rightArm2Mesh s) (rightArmPivot s)
       (leftArmMesh s) (leftArm2Mesh s) (leftArmPivot s) (headChildren s));
    (fun s => mkSkinObject (slim s)
       (rightArmMesh s)
       (mkArmLayer (mkVector3 (if slim s then 3.5 else 4.5) 12.5 4.5) (setSkinUVs 40 32 (armWidth s) 12 4))
       (rightArmPivot s)
       (leftArmMesh s) (leftArm2Mesh s) (leftArmPivot s) (headChildren s));
    (fun s => mkSkinObject (slim s)
       (rightArmMesh s) (rightArm2Mesh s)
       (mkVector3 (if slim s then -0.5 else -1) (vy (rightArmPivot s)) (vz (rightArmPivot s)))
       (leftArmMesh s) (leftArm2Mesh s) (leftArmPivot s) (headChildren s));
    (fun s => mkSkinObject (slim s)
       (rightArmMesh s) (rightArm2Mesh s) (rightArmPivot s)
       (mkArmLayer (mkVector3 (if slim s then 3 else 4) 12 4) (setSkinUVs 32 48 (armWidth s) 12 4))
       (leftArm2Mesh s) (leftArmPivot s) (headChildren s));
    (fun s => mkSkinObject (slim s)
       (rightArmMesh s) (rightArm2Mesh s) (rightArmPivot s)
       (leftArmMesh s)
       (mkArmLayer (mkVector3 (if slim s then 3.5 else 4.5) 12.5 4.5) (setSkinUVs 48 48 (armWidth s) 12 4))
       (leftArmPivot s) (headChildren s));
    (fun s => mkSkinObject (slim s)
       (rightArmMesh s) (rightArm2Mesh s) (rightArmPivot s)
       (leftArmMesh s) (leftArm2Mesh s)
       (mkVector3 (if slim s then 0.5 else 1) (vy (leftArmPivot s)) (vz (leftArmPivot s)))
       (headChildren s)) ]%R.

Definition get_modelType (s : SkinObject) : ModelType :=
  if slim s then ModelSlim else ModelDefault.

(** [set modelType(value)]: store the flag, then run every listener. *)
Definition set_modelType (value : ModelType) (s : SkinObject) : SkinObject :=
  let s := mkSkinObject (match value with ModelSlim => true | ModelDefault => false end)
             (rightArmMesh s) (rightArm2Mesh s) (rightArmPivot s)
             (leftArmMesh s) (leftArm2Mesh s) (leftArmPivot s) (headChildren s) in
  foldl (fun s listener => listener s) s modelListeners.

(** The uv attribute of a fresh [BoxGeometry]: (ix, 1 - iy) per corner. *)
Definition defaultBoxUV : list Vector2 :=
  concat (replicate 6 [ mkVector2 0 1; mkVector2 1 1; mkVector2 0 0; mkVector2 1 0 ])%Q.

(** The arm state of [new SkinObject(texture)]. *)
Definition newSkinObject : SkinObject :=
  let unit := mkArmLayer (mkVector3 1 1 1) defaultBoxUV in
  set_modelType ModelDefault
    (mkSkinObject false unit unit (mkVector3 0 (-4) 0) unit unit (mkVector3 0 (-4) 0) [])%R.

(** ** Cape and elytra *)

Record CapeObject := mkCapeObject { cape_visible : bool; cape_uv : list Vector2 }.

Definition newCapeObject : CapeObject := mkCapeObject true (setCapeUVs 0 0 10 16 1).

(** A pivot group of the elytra: position and Euler rotation. *)
Record Wing := mkWing { wing_position : Vector3; wing_rotation : Vector3 }.

Record ElytraObject := mkElytraObject {
  leftWing : Wing;
  rightWing : Wing;
  elytra_visible : bool }.

Definition updateRightWing (e : ElytraObject) : ElytraObject :=
  let l := leftWing e in
  let r := rightWing e in
  mkElytraObject l
    (mkWing (mkVector3 (- vx (wing_position l)) (vy (wing_position l)) (vz (wing_position r)))
            (mkVector3 (vx (wing_rotation l)) (- vy (wing_rotation l)) (- vz (wing_rotation l))))%R
    (elytra_visible e).

Definition newElytraObject : ElytraObject :=
  updateRightWing
    (mkElytraObject (mkWing (mkVector3 5 0 0) (mkVector3 0.2617994 0.01 0.2617994))
                    (mkWing zeroVector zeroVector) true)%R.

(** ** The player object *)

Inductive BackEquipment := BackCape | BackElytra.

(** An entry of [hatCanvases] / [shoulderBuddyCanvases]. *)
Record AccessoryCanvas := mkAccessoryCanvas { model : option Document }.

Record PlayerObject := mkPlayerObject {
  skin : SkinObject;
  cape : CapeObject;
  elytra : ElytraObject;
  hat : JsonModelObject;
  hat1 : option JsonModelObject;
  hat2 : option JsonModelObject;
  hat3 : option JsonModelObject;
  hat4 : option JsonModelObject;
  hat5 : option JsonModelObject;
  hat6 : option JsonModelObject;
  hat7 : option JsonModelObject;
  hat8 : option JsonModelObject;
  hat9 : option JsonModelObject;
  shoulderBuddy1 : option JsonModelObject;
  shoulderBuddy2 : option JsonModelObject;
  shoulderBuddy3 : option JsonModelObject;
  shoulderBuddy4 : option JsonModelObject;
  shoulderBuddy5 : option JsonModelObject;
  shoulderBuddy6 : option JsonModelObject;
  shoulderBuddy7 : option JsonModelObject;
  shoulderBuddy8 : option JsonModelObject;
  shoulderBuddy9 : option JsonModelObject;
  shoulderBuddy : JsonModelObject;
  children : list JsonModelObject   (* accessory objects added to the player itself *)
}.

(** The statements that follow [new JsonModelObject(...)] for a hat:
    name, position y / x / z, rotation y. *)
Definition placeHat (o : JsonModelObject) (name : string) : JsonModelObject :=
  mkJsonModelObject name (mkVector3 8 8 8)
    (mkVector3 (vx (jm_rotation o)) PI (vz (jm_rotation o)))
    (jm_visible o) (jm_children o).

Definition placeShoulderBuddy (o : JsonModelObject) (name : string) : JsonModelObject :=
  mkJsonModelObject name (mkVector3 13.8 7.5 8)
    (mkVector3 (vx (jm_rotation o)) PI (vz (jm_rotation o)))
    (jm_visible o) (jm_children o).

(** One [if (canvases[i] != null) { ... }] block of the constructor.
    [field] is the current value of the field the block assigns, [target]
    the children of the object the block adds to; the result is their new
    values.  A missing index reads [undefined], which [!= null] rejects. *)
Definition mountBlock (place : JsonModelObject -> string -> JsonModelObject)
    (entry : option (option AccessoryCanvas)) (texture : Texture) (name : string)
    (field : option JsonModelObject) (target : list JsonModelObject)
  : option JsonModelObject * list JsonModelObject :=
  match entry with
  | Some (Some canvas) =>
      let o := newJsonModelObject texture (model canvas) in
      let o := place o name in
      (Some o, target ++ [o])
  | _ => (field, target)
  end.

(** [new PlayerObject(...)]; the ears and the static body parts are left
    out. *)
Definition newPlayerObject (skinTexture capeTexture hatTexture : Texture)
    (hatModel : option Document) (shoulderBuddyTexture : Texture)
    (shoulderBuddyModel : option Document) (earsTexture : Texture)
    (hatCanvases shoulderBuddyCanvases : list (option AccessoryCanvas))
  : PlayerObject :=
  let skin := newSkinObject in
  let cape := newCapeObject in
  let elytra := mkElytraObject (leftWing newElytraObject) (rightWing newElytraObject) false in
  let head := headChildren skin in
  let hat := newJsonModelObject hatTexture hatModel in
  let hat := placeHat hat "hat" in
  let head := head ++ [hat] in
  let hat1 : option JsonModelObject := None in
  let hat2 : option JsonModelObject := None in
  let hat3 : option JsonModelObject := None in
  let hat4 : option JsonModelObject := None in
  let hat5 : option JsonModelObject := None in
  let hat6 : option JsonModelObject := None in
  let hat7 : option JsonModelObject := None in
  let hat8 : option JsonModelObject := None in
  let hat9 : option JsonModelObject := None in
  let '(hat1, head) := mountBlock placeHat (hatCanvases !! 0%nat) hatTexture "hat1" hat1 head in
  let '(hat2, head) := mountBlock placeHat (hatCanvases !! 1%nat) hatTexture "hat2" hat2 head in
  let '(hat3, head) := mountBlock placeHat (hatCanvases !! 2%nat) hatTexture "hat3" hat3 head in
  let '(hat4, head) := mountBlock placeHat (hatCanvases !! 3%nat) hatTexture "hat4" hat4 head in
  let '(hat5, head) := mountBlock placeHat (hatCanvases !! 4%nat) hatTexture "hat5" hat5 head in
  let '(hat6, head) := mountBlock placeHat (hatCanvases !! 5%nat) hatTexture "hat6" hat6 head in
  let '(hat7, head) := mountBlock placeHat (hatCanvases !! 6%nat) hatTexture "hat7" hat7 head in
  let '(hat8, head) := mountBlock placeHat (hatCanvases !! 7%nat) hatTexture "hat8" hat8 head in
  let '(hat8, head) := mountBlock placeHat (hatCanvases !! 8%nat) hatTexture "hat8" hat8 head in
  let children : list JsonModelObject := [] in
  let shoulderBuddy1 : option JsonModelObject := None in
  let shoulderBuddy2 : option JsonModelObject := None in
  let shoulderBuddy3 : option JsonModelObject := None in
  let shoulderBuddy4 : option JsonModelObject := None in
  let shoulderBuddy5 : option JsonModelObject := None in
  let shoulderBuddy6 : option JsonModelObject := None in
  let shoulderBuddy7 : option JsonModelObject := None in
  let shoulderBuddy8 : option JsonModelObject := None in
  let shoulderBuddy9 : option JsonModelObject := None in
  let '(shoulderBuddy1, children) := mountBlock placeShoulderBuddy (shoulderBuddyCanvases !! 0%nat) shoulderBuddyTexture "shoulderBuddy1" shoulderBuddy1 children in
  let '(shoulderBuddy2, children) := mountBlock placeShoulderBuddy (shoulderBuddyCanvases !! 1%nat) shoulderBuddyTexture "shoulderBuddy2" shoulderBuddy2 children in
  let '(shoulderBuddy3, children) := mountBlock placeShoulderBuddy (shoulderBuddyCanvases !! 2%nat) shoulderBuddyTexture "shoulderBuddy3" shoulderBuddy3 children in
  let '(shoulderBuddy4, children) := mountBlock placeShoulderBuddy (shoulderBuddyCanvases !! 3%nat) shoulderBuddyTexture "shoulderBuddy4" shoulderBuddy4 children in
  let '(shoulderBuddy5, children) := mountBlock placeShoulderBuddy (shoulderBuddyCanvases !! 4%nat) shoulderBuddyTexture "shoulderBuddy5" shoulderBuddy5 children in
  let '(shoulderBuddy6, children) := mountBlock placeShoulderBuddy (shoulderBuddyCanvases !! 5%nat) shoulderBuddyTexture "shoulderBuddy6" shoulderBuddy6 children in
  let '(shoulderBuddy7, children) := mountBlock placeShoulderBuddy (shoulderBuddyCanvases !! 6%nat) shoulderBuddyTexture "shoulderBuddy7" shoulderBuddy7 children in
  let '(shoulderBuddy8, children) := mountBlock placeShoulderBuddy (shoulderBuddyCanvases !! 7%nat) shoulderBuddyTexture "shoulderBuddy8" shoulderBuddy8 children in
  let '(shoulderBuddy8, children) := mountBlock placeShoulderBuddy (shoulderBuddyCanvases !! 8%nat) shoulderBuddyTexture "shoulderBuddy8" shoulderBuddy8 children in
  let shoulderBuddy := newJsonModelObject shoulderBuddyTexture shoulderBuddyModel in
  let shoulderBuddy := placeShoulderBuddy shoulderBuddy "shoulderbuddy" in
  let children := children ++ [shoulderBuddy] in
  let skin := mkSkinObject (slim skin) (rightArmMesh skin) (rightArm2Mesh skin)
                (rightArmPivot skin) (leftArmMesh skin) (leftArm2Mesh skin)
                (leftArmPivot skin) head in
  mkPlayerObject skin cape elytra hat
          hat1 hat2 hat3 hat4 hat5 hat6 hat7 hat8 hat9
          shoulderBuddy1 shoulderBuddy2 shoulderBuddy3 shoulderBuddy4 shoulderBuddy5 shoulderBuddy6 shoulderBuddy7 shoulderBuddy8 shoulderBuddy9
    shoulderBuddy children.

Definition get_backEquipment (p : PlayerObject) : option BackEquipment :=
  if cape_visible (cape p) then Some BackCape
  else if elytra_visible (elytra p) then Some BackElytra
  else None.

Definition set_backEquipment (value : option BackEquipment) (p : PlayerObject) : PlayerObject :=
  let p :=
    mkPlayerObject (skin p) (mkCapeObject (match value with Some BackCape => true | _ => false end) (cape_uv (cape p))) (elytra p) (hat p) (hat1 p) (hat2 p) (hat3 p) (hat4 p) (hat5 p) (hat6 p) (hat7 p) (hat8 p) (hat9 p) (shoulderBuddy1 p) (shoulderBuddy2 p) (shoulderBuddy3 p) (shoulderBuddy4 p) (shoulderBuddy5 p) (shoulderBuddy6 p) (shoulderBuddy7 p) (shoulderBuddy8 p) (shoulderBuddy9 p) (shoulderBuddy p) (children p) in
  mkPlayerObject (skin p) (cape p) (mkElytraObject (leftWing (elytra p)) (rightWing (elytra p)) (match value with Some BackElytra => true | _ => false end)) (hat p) (hat1 p) (hat2 p) (hat3 p) (hat4 p) (hat5 p) (hat6 p) (hat7 p) (hat8 p) (hat9 p) (shoulderBuddy1 p) (shoulderBuddy2 p) (shoulderBuddy3 p) (shoulderBuddy4 p) (shoulderBuddy5 p) (shoulderBuddy6 p) (shoulderBuddy7 p) (shoulderBuddy8 p) (shoulderBuddy9 p) (shoulderBuddy p) (children p).

(** The object a hat block mounts for an entry, [None] for a null or
    missing entry. *)
Definition mountedHat (texture : Texture) (entry : option (option AccessoryCanvas))
    (name : string) : option JsonModelObject :=
  match entry with
  | Some (Some canvas) => Some (placeHat (newJsonModelObject texture (model canvas)) name)
  | _ => None
  end.

(** ** The boxes of the skeleton and of the accessories on their textures *)

(** The uv attributes that the constructor of [SkinObject] writes once, on
    the boxes of the head, the body and the legs. *)
Definition headUV : list Vector2 := setSkinUVs 0 0 8 8 8.
Definition head2UV : list Vector2 := setSkinUVs 32 0 8 8 8.
Definition bodyUV : list Vector2 := setSkinUVs 16 16 8 12 4.
Definition body2UV : list Vector2 := setSkinUVs 16 32 8 12 4.
Definition rightLegUV : list Vector2 := setSkinUVs 0 16 4 12 4.
Definition rightLeg2UV : list Vector2 := setSkinUVs 0 32 4 12 4.
Definition leftLegUV : list Vector2 := setSkinUVs 16 48 4 12 4.
Definition leftLeg2UV : list Vector2 := setSkinUVs 0 48 4 12 4.

(** The uv attributes of the twelve boxes of a skin object: inner and
    outer layer of head, body, right arm, left arm, right leg, left leg. *)
Definition skinBoxUVs (s : SkinObject) : list (list Vector2) :=
  [ headUV; head2UV; bodyUV; body2UV;
    layer_uv (rightArmMesh s); layer_uv (rightArm2Mesh s);
    layer_uv (leftArmMesh s); layer_uv (leftArm2Mesh s);
    rightLegUV; rightLeg2UV; leftLegUV; leftLeg2UV ].

(** The uv attribute of either wing box of the elytra, and of the box that
    both ears share. *)
Definition wingBoxUV : list Vector2 := setCapeUVs 22 0 10 20 2.
Definition earBoxUV : list Vector2 := setUVs 0 0 6 6 1 14 7.

(** ** The accessory blocks of the constructor *)

(** The object a shoulder-buddy block mounts for an entry, [None] for a
    null or missing entry. *)
Definition mountedShoulderBuddy (texture : Texture) (entry : option (option AccessoryCanvas))
    (name : string) : option JsonModelObject :=
  match entry with
  | Some (Some canvas) => Some (placeShoulderBuddy (newJsonModelObject texture (model canvas)) name)
  | _ => None
  end.

(** The nine hat blocks of the constructor, in source order: the index
    each one reads and the name it gives to its object. *)
Definition hatBlocks : list (nat * string) :=
  [ (0, "hat1"); (1, "hat2"); (2, "hat3"); (3, "hat4"); (4, "hat5");
    (5, "hat6"); (6, "hat7"); (7, "hat8"); (8, "hat8") ]%nat%string.

Definition shoulderBuddyBlocks : list (nat * string) :=
  [ (0, "shoulderBuddy1"); (1, "shoulderBuddy2"); (2, "shoulderBuddy3");
    (3, "shoulderBuddy4"); (4, "shoulderBuddy5"); (5, "shoulderBuddy6");
    (6, "shoulderBuddy7"); (7, "shoulderBuddy8"); (8, "shoulderBuddy8") ]%nat%string.

End Model.

(* ===================================================================== *)
(** * The legacy upgrade against the boxes of the limbs                    *)
(* ===================================================================== *)

Module Layout.
Import Projector.
Open Scope Q_scope.

(** The faces of a box in the order in which [setUVs] writes them. *)
Inductive BoxFace := FaceRight | FaceLeft | FaceTop | FaceBottom | FaceFront | FaceBack.

Definition faceIndex (f : BoxFace) : nat :=
  match f with
  | FaceRight => 0 | FaceLeft => 1 | FaceTop => 2
  | FaceBottom => 3 | FaceFront => 4 | FaceBack => 5
  end.

(** The pixel rectangle of one face of a box with uv attribute [uv] on the
    skin atlas. *)
Definition faceRect (uv : list Vector2) (f : BoxFace) : option Rect :=
  faceRects 64 64 uv !! faceIndex f.

Definition mirrorFace (f : BoxFace) : BoxFace :=
  match f with FaceRight => FaceLeft | FaceLeft => FaceRight | f => f end.

(** Source and destination rectangle of a copy rule at scale 1. *)
Definition ruleSource (rule : Z * Z * Z * Z * Z * Z) : Rect :=
  let '(sX, sY, w, h, dX, dY) := rule in
  mkRect (inject_Z sX) (inject_Z sY) (inject_Z (sX + w)) (inject_Z (sY + h)).

Definition ruleDestination (rule : Z * Z * Z * Z * Z * Z) : Rect :=
  let '(sX, sY, w, h, dX, dY) := rule in
  mkRect (inject_Z dX) (inject_Z dY) (inject_Z (dX + w)) (inject_Z (dY + h)).

Definition rectEqb (r s : Rect) : bool :=
  Qeq_bool (rx1 r) (rx1 s) && Qeq_bool (ry1 r) (ry1 s) &&
  Qeq_bool (rx2 r) (rx2 s) && Qeq_bool (ry2 r) (ry2 s).

(** Whether [rule] copies face [f] of the box with uv attribute [right]
    onto the mirrored face of the box with uv attribute [left]. *)
Definition copiesFace (right left : list Vector2) (rule : Z * Z * Z * Z * Z * Z)
    (f : BoxFace) : bool :=
  match faceRect right f, faceRect left (mirrorFace f) with
  | Some src, Some dst => rectEqb (ruleSource rule) src && rectEqb (ruleDestination rule) dst
  | _, _ => false
  end.

End Layout.

(* ===================================================================== *)
(** * The viewer: camera distance and render loop                         *)
(* ===================================================================== *)

Module Viewer.
Import Three.

Section Camera.
Open Scope R_scope.

(** The local [distance] of [adjustCameraDistance] after the two tests;
    [fov] is in degrees.  The real quotient is what JavaScript computes
    where no denominator is 0, that is for a field of view strictly between
    0 and 180 degrees and a zoom other than 0. *)
Definition cameraDistance (fov zoom : R) : R :=
  let distance := 4.5 + 16.5 / tan (fov / 180 * PI / 2) / zoom in
  if Rlt_dec distance 10 then 10
  else if Rgt_dec distance 256 then 256
  else distance.

(** [adjustCameraDistance]: the new [camera.position]. *)
Definition adjustCameraDistance (fov zoom : R) (position : Vector3) : Vector3 :=
  let distance := cameraDistance fov zoom in
  multiplyScalar position (distance / vectorLength position).

End Camera.

(** ** The render loop *)

(** The fields that decide whether a frame is requested: [_renderPaused],
    [_disposed], [animationID], and the context-lost flag of the renderer's
    WebGL context.  [requested] counts the calls of
    [requestAnimationFrame]; the handle returned is the count. *)
Record RenderLoop := mkRenderLoop {
  renderPaused : bool;
  disposed : bool;
  contextLost : bool;
  animationID : option nat;
  requested : nat }.

Definition requestAnimationFrame (s : RenderLoop) : RenderLoop :=
  mkRenderLoop (renderPaused s) (disposed s) (contextLost s)
               (Some (S (requested s))) (S (requested s)).

(** [if (this.animationID !== null) { cancelAnimationFrame(...);
    this.animationID = null; }] *)
Definition cancelAnimationFrame (s : RenderLoop) : RenderLoop :=
  mkRenderLoop (renderPaused s) (disposed s) (contextLost s) None (requested s).

(** The end of the constructor; [paused] is [options.renderPaused === true]. *)
Definition construct (paused : bool) : RenderLoop :=
  let s := mkRenderLoop false false false None 0 in
  if paused then mkRenderLoop true (disposed s) (contextLost s) None (requested s)
  else requestAnimationFrame s.

(** What can happen to a viewer: the browser runs the requested frame
    (which calls [draw]), the program assigns [renderPaused] or calls
    [dispose], the WebGL context is lost or restored. *)
Inductive Event :=
  | Frame
  | SetRenderPaused (value : bool)
  | Dispose
  | ContextLost
  | ContextRestored.

Definition set_renderPaused (value : bool) (s : RenderLoop) : RenderLoop :=
  let s := mkRenderLoop value (disposed s) (contextLost s) (animationID s) (requested s) in
  if renderPaused s && bool_decide (animationID s <> None) then cancelAnimationFrame s
  else if negb (renderPaused s) && negb (disposed s) && negb (contextLost s)
          && bool_decide (animationID s = None)
       then requestAnimationFrame s
       else s.

Definition dispose (s : RenderLoop) : RenderLoop :=
  let s := mkRenderLoop (renderPaused s) true (contextLost s) (animationID s) (requested s) in
  if bool_decide (animationID s <> None) then cancelAnimationFrame s else s.

Definition onContextLost (s : RenderLoop) : RenderLoop :=
  if bool_decide (animationID s <> None) then cancelAnimationFrame s else s.

Definition onContextRestored (s : RenderLoop) : RenderLoop :=
  if negb (renderPaused s) && negb (disposed s) && bool_decide (animationID s = None)
  then requestAnimationFrame s
  else s.

(** One event.  A frame only runs when one is requested and not
    cancelled; [dispose] removes the two context listeners, so the handlers
    no longer run afterwards.  The animations that [draw] runs are taken
    not to call back into the viewer. *)
Definition handle (s : RenderLoop) (e : Event) : RenderLoop :=
  match e with
  | Frame =>
      match animationID s with
      | Some _ => requestAnimationFrame s
      | None => s
      end
  | SetRenderPaused value => set_renderPaused value s
  | Dispose => dispose s
  | ContextLost =>
      let s := mkRenderLoop (renderPaused s) (disposed s) true (animationID s) (requested s) in
      if disposed s then s else onContextLost s
  | ContextRestored =>
      let s := mkRenderLoop (renderPaused s) (disposed s) false (animationID s) (requested s) in
      if disposed s then s else onContextRestored s
  end.

(** A frame is requested exactly when the viewer is neither paused nor
    disposed and its context is not lost. *)
Definition loopInvariant (s : RenderLoop) : Prop :=
  bool_decide (animationID s <> None)
  = negb (renderPaused s) && negb (disposed s) && negb (contextLost s).

End Viewer.

(* ===================================================================== *)
(** * Properties                                                           *)
(* ===================================================================== *)

Import Projector Atlas Three Model.

(** ** The fixed-convention projector: the unfolded cross *)

Section Unfolding.
Open Scope Q_scope.

Lemma Qle_bool_equiv a b a' b' : a == a' -> b == b' -> Qle_bool a b = Qle_bool a' b'.
Proof.
  intros Ha Hb. apply eq_true_iff_eq.
  rewrite !Qle_bool_iff, Ha, Hb. reflexivity.
Qed.

Lemma Qlt_bool_equiv a b a' b' : a == a' -> b == b' -> Qlt_bool a b = Qlt_bool a' b'.
Proof.
  intros Ha Hb. unfold Qlt_bool. f_equal. apply Qle_bool_equiv; assumption.
Qed.

Lemma Qlt_bool_false a b : Qlt_bool a b = false <-> b <= a.
Proof.
  unfold Qlt_bool. rewrite negb_false_iff. apply Qle_bool_iff.
Qed.

Lemma overlap_equiv r r' s s' :
  rectEquiv r r' -> rectEquiv s s' -> overlap r s = overlap r' s'.
Proof.
  intros (A1 & A2 & A3 & A4) (B1 & B2 & B3 & B4). unfold overlap.
  rewrite (Qlt_bool_equiv _ _ _ _ A1 B3), (Qlt_bool_equiv _ _ _ _ B1 A3),
          (Qlt_bool_equiv _ _ _ _ A2 B4), (Qlt_bool_equiv _ _ _ _ B2 A4).
  reflexivity.
Qed.

Lemma inCanvas_equiv tw th r r' : rectEquiv r r' -> inCanvas tw th r = inCanvas tw th r'.
Proof.
  intros (A1 & A2 & A3 & A4). unfold inCanvas.
  rewrite (Qle_bool_equiv 0 (rx1 r) 0 (rx1 r')), (Qle_bool_equiv (rx2 r) tw (rx2 r') tw),
          (Qle_bool_equiv 0 (ry1 r) 0 (ry1 r')), (Qle_bool_equiv (ry2 r) th (ry2 r') th);
    try assumption; reflexivity.
Qed.

Lemma forallb_inCanvas_equiv tw th rs rs' :
  Forall2 rectEquiv rs rs' -> forallb (inCanvas tw th) rs = forallb (inCanvas tw th) rs'.
Proof.
  induction 1 as [|r r' rs rs' Hr _ IH]; cbn; [reflexivity|].
  rewrite (inCanvas_equiv _ _ _ _ Hr), IH. reflexivity.
Qed.

Lemma pairwiseDisjoint_equiv rs rs' :
  Forall2 rectEquiv rs rs' -> pairwiseDisjoint rs = pairwiseDisjoint rs'.
Proof.
  induction 1 as [|r r' rs rs' Hr Hrs IH]; cbn; [reflexivity|].
  rewrite IH. f_equal.
  clear IH. induction Hrs as [|s s' ss ss' Hs _ IH]; cbn; [reflexivity|].
  rewrite (overlap_equiv _ _ _ _ Hr Hs), IH. reflexivity.
Qed.

Lemma overlap_false r s :
  rx2 s <= rx1 r \/ rx2 r <= rx1 s \/ ry2 s <= ry1 r \/ ry2 r <= ry1 s ->
  overlap r s = false.
Proof.
  unfold overlap. rewrite !andb_false_iff, !Qlt_bool_false. tauto.
Qed.

Lemma unnormalise_x (x : Q) : x / 64 * 64 == x.
Proof. field. Qed.

Lemma unnormalise_y (y : Q) : (1 - (1 - y / 64)) * 64 == y.
Proof. field. Qed.

Lemma Qmin4_eq x p q r s :
  x <= p -> x <= q -> x <= r -> x <= s ->
  p == x \/ q == x \/ r == x \/ s == x ->
  Qmin (Qmin p q) (Qmin r s) == x.
Proof.
  intros Hp Hq Hr Hs Hex. apply Qle_antisym.
  - destruct Hex as [E|[E|[E|E]]]; rewrite <- E.
    + eapply Qle_trans; [apply Q.le_min_l|apply Q.le_min_l].
    + eapply Qle_trans; [apply Q.le_min_l|apply Q.le_min_r].
    + eapply Qle_trans; [apply Q.le_min_r|apply Q.le_min_l].
    + eapply Qle_trans; [apply Q.le_min_r|apply Q.le_min_r].
  - repeat apply Q.min_glb; assumption.
Qed.

Lemma Qmax4_eq x p q r s :
  p <= x -> q <= x -> r <= x -> s <= x ->
  p == x \/ q == x \/ r == x \/ s == x ->
  Qmax (Qmax p q) (Qmax r s) == x.
Proof.
  intros Hp Hq Hr Hs Hex. apply Qle_antisym.
  - repeat apply Q.max_lub; assumption.
  - destruct Hex as [E|[E|[E|E]]]; rewrite <- E.
    + eapply Qle_trans; [apply Q.le_max_l|apply Q.le_max_l].
    + eapply Qle_trans; [apply Q.le_max_r|apply Q.le_max_l].
    + eapply Qle_trans; [apply Q.le_max_l|apply Q.le_max_r].
    + eapply Qle_trans; [apply Q.le_max_r|apply Q.le_max_r].
Qed.

Ltac pixel_bound :=
  first [apply Qmin4_eq | apply Qmax4_eq];
  rewrite ?unnormalise_x, ?unnormalise_y;
  first [ Lqa.lra
        | left; reflexivity
        | right; left; reflexivity
        | right; right; left; reflexivity
        | right; right; right; reflexivity ].

(** For a box with non-negative dimensions the pixel-space bounding boxes
    of the six quadrilaterals written by [setSkinUVs] are the rectangles of
    the unfolding. *)
Lemma faceRects_setSkinUVs (u v width height depth : Q) :
  0 <= width -> 0 <= height -> 0 <= depth ->
  Forall2 rectEquiv (faceRects 64 64 (setSkinUVs u v width height depth))
                    (unfolding u v width height depth).
Proof.
  intros Hw Hh Hd.
  unfold setSkinUVs, setUVs, unfolding.
  cbn [faceRects toFaceVertices q0 q1 q2 q3].
  repeat (constructor; [unfold rectEquiv, bbox4, toPixel; cbn [rx1 ry1 rx2 ry2 v2x v2y]; repeat split; pixel_bound|]).
  constructor.
Qed.

Ltac disjoint_pair :=
  apply overlap_false; cbn [rx1 ry1 rx2 ry2];
  first [ left; Lqa.lra
        | right; left; Lqa.lra
        | right; right; left; Lqa.lra
        | right; right; right; Lqa.lra ].

Lemma unfolding_disjoint (u v width height depth : Q) :
  0 <= width -> 0 <= height -> 0 <= depth ->
  pairwiseDisjoint (unfolding u v width height depth) = true.
Proof.
  intros Hw Hh Hd. unfold unfolding.
  cbn [pairwiseDisjoint forallb].
  repeat match goal with
  | |- context [ overlap ?r ?s ] =>
      replace (overlap r s) with false by (symmetry; disjoint_pair)
  end.
  reflexivity.
Qed.

Lemma unfolding_inCanvas (u v width height depth : Q) :
  0 <= width -> 0 <= height -> 0 <= depth ->
  forallb (inCanvas 64 64) (unfolding u v width height depth) = true <->
  0 <= u /\ 0 <= v /\ u + 2 * width + 2 * depth <= 64 /\ v + depth + height <= 64.
Proof.
  intros Hw Hh Hd. unfold unfolding, inCanvas.
  cbn [forallb rx1 ry1 rx2 ry2].
  rewrite !andb_true_iff, !Qle_bool_iff.
  split.
  - intros H. decompose [and] H. repeat split; Lqa.lra.
  - intros (H1 & H2 & H3 & H4). repeat split; Lqa.lra.
Qed.

End Unfolding.

(** C1 does not hold for every offset: the skin projection of an
    8 x 8 x 8 box at atlas offset (60, 0) leaves the 64 x 64 canvas (its
    back face ends at pixel column 92). *)
Lemma skin_faces_leave_canvas :
  forallb (inCanvas 64 64) (faceRects 64 64 (setSkinUVs 60 0 8 8 8)) = false.
Proof. vm_compute. reflexivity. Qed.

(** C1, amended. For a box with non-negative dimensions projected with the
    skin convention, the six face quadrilaterals of the uv attribute, mapped
    back to pixel space, never overlap one another, and they all lie inside
    the 64 x 64 canvas exactly when the unfolding does: [0 <= u], [0 <= v],
    [u + 2 width + 2 depth <= 64] and [v + depth + height <= 64]. *)
Theorem skin_faces_disjoint_contained (u v width height depth : Q) :
  (0 <= width)%Q -> (0 <= height)%Q -> (0 <= depth)%Q ->
  let faces := faceRects 64 64 (setSkinUVs u v width height depth) in
  length faces = 6%nat /\
  pairwiseDisjoint faces = true /\
  (forallb (inCanvas 64 64) faces = true <->
   (0 <= u /\ 0 <= v /\ u + 2 * width + 2 * depth <= 64 /\ v + depth + height <= 64)%Q).
Proof.
  intros Hw Hh Hd faces.
  pose proof (faceRects_setSkinUVs u v width height depth Hw Hh Hd) as Heq.
  fold faces in Heq.
  split; [reflexivity|]. split.
  - rewrite (pairwiseDisjoint_equiv _ _ Heq). apply unfolding_disjoint; assumption.
  - rewrite (forallb_inCanvas_equiv _ _ _ _ Heq). apply unfolding_inCanvas; assumption.
Qed.

Lemma skin_faces_disjoint_contained_witness :
  pairwiseDisjoint (faceRects 64 64 (setSkinUVs 40 16 4 12 4)) = true /\
  forallb (inCanvas 64 64) (faceRects 64 64 (setSkinUVs 40 16 4 12 4)) = true.
Proof.
  destruct (skin_faces_disjoint_contained 40 16 4 12 4) as (_ & Hd & Hc);
    [vm_compute; discriminate .. |].
  split; [exact Hd|].
  apply Hc. repeat split; vm_compute; discriminate.
Defined.

(** ** Face rotation in the free-form projector *)

(** [rotateArray] with a non-negative shift is the cyclic left rotation of
    the array, whatever its length. *)
Lemma rotateArray_rotate {T : Type} (arr : list T) (shift : Z) :
  (0 <= shift)%Z ->
  rotateArray arr shift = map Some (rotate (Z.to_nat shift) arr).
Proof.
  intros Hs. apply list_eq. intros i.
  unfold rotateArray.
  rewrite !list_lookup_fmap.
  destruct (decide (i < length arr)%nat) as [Hi|Hi].
  - rewrite lookup_seq_lt by exact Hi. cbn [fmap option_fmap option_map Nat.add].
    rewrite lookup_rotate_r by exact Hi. unfold rotate_nat_add.
    rewrite Z.rem_mod_nonneg by lia.
    replace (Z.of_nat i + shift)%Z with (shift + Z.of_nat i)%Z by lia.
    pose proof (Z.mod_pos_bound (shift + Z.of_nat i) (Z.of_nat (length arr)) ltac:(lia)) as Hb.
    destruct (Z.ltb_spec ((shift + Z.of_nat i) mod Z.of_nat (length arr)) 0) as [Hneg|_]; [lia|].
    rewrite Z2Nat.id by exact Hs.
    destruct (lookup_lt_is_Some_2 arr (Z.to_nat ((shift + Z.of_nat i) mod Z.of_nat (length arr))))
      as [x Hx]; [lia|].
    rewrite Hx. reflexivity.
  - rewrite (lookup_ge_None_2 (seq 0 (length arr))) by (rewrite length_seq; lia).
    rewrite (lookup_ge_None_2 (rotate _ arr)) by (rewrite length_rotate; lia).
    reflexivity.
Qed.

(** [rotation: undefined] is rotation 0: the unrotated vertices. *)
Lemma jsonFaceVertices_unrotated (f : Face) :
  rotation f = None ->
  jsonFaceVertices f = map Some (unrotatedFaceVertices f).
Proof.
  intros H. unfold jsonFaceVertices. rewrite H.
  destruct f as [[[[a b] c] d] r]; reflexivity.
Qed.

(** C2. A declared rotation [r] in {0, 90, 180, 270} turns the four
    vertices of the unrotated projection of the same uv rectangle by
    [floor (r / 90)] positions, entry [i] becoming entry [i + r / 90]
    (cyclically); for 90 the vertices v0 v1 v2 v3 become v1 v2 v3 v0. *)
Theorem jsonFaceVertices_rotation (uvRect : Q * Q * Q * Q) (r : Q) :
  In r [0; 90; 180; 270]%Q ->
  let unrotated := unrotatedFaceVertices (mkFace uvRect None) in
  jsonFaceVertices (mkFace uvRect (Some r))
    = map Some (rotate (Z.to_nat (Qfloor (r / 90))) unrotated) /\
  (r = 90%Q ->
   exists v0 v1 v2 v3,
     unrotated = [v0; v1; v2; v3] /\
     jsonFaceVertices (mkFace uvRect (Some r)) = [Some v1; Some v2; Some v3; Some v0]).
Proof.
  intros H unrotated. split.
  - unfold jsonFaceVertices. cbn [rotation].
    apply (rotateArray_rotate (unrotatedFaceVertices (mkFace uvRect (Some r)))).
    cbn in H. destruct H as [<-|[<-|[<-|[<-|[]]]]]; vm_compute; discriminate.
  - intros ->. destruct uvRect as [[[a b] c] d].
    do 4 eexists. split; reflexivity.
Qed.

Lemma jsonFaceVertices_rotation_witness :
  In 90%Q [0; 90; 180; 270]%Q /\
  jsonFaceVertices (mkFace (0, 0, 16, 8)%Q (Some 90%Q))
    = map Some (rotate 1 (unrotatedFaceVertices (mkFace (0, 0, 16, 8)%Q None))).
Proof.
  split.
  - cbn. auto.
  - apply (jsonFaceVertices_rotation (0, 0, 16, 8)%Q 90%Q). cbn. auto.
Defined.

(** A negative rotation is not a cyclic shift: the first entries read
    [undefined]. *)
Lemma jsonFaceVertices_negative (uvRect : Q * Q * Q * Q) :
  head (jsonFaceVertices (mkFace uvRect (Some (-90)%Q))) = Some None.
Proof. destruct uvRect as [[[a b] c] d]. reflexivity. Qed.

(** The four entries that [setJsonUVs] writes for one face. *)
Lemma setJsonUVs_faces (f : FaceUVs) :
  let picks face :=
    copyVector2sArray (map (entry (jsonFaceVertices face)) [3; 2; 0; 1]%nat) in
  setJsonUVs f
    = picks (east f) ++ picks (west f) ++ picks (up f) ++ picks (down f)
      ++ picks (south f) ++ picks (north f).
Proof. reflexivity. Qed.

(** With a supported rotation no entry of a face is [undefined], so
    nothing is replaced by (0, 0). *)
Lemma jsonFaceVertices_entries (face : Face) :
  (exists r, rotation face = Some r /\ In r [0; 90; 180; 270]%Q) ->
  exists a b c d, jsonFaceVertices face = [Some a; Some b; Some c; Some d].
Proof.
  intros (r & Hr & Hin).
  destruct face as [[[[x1 y1] x2] y2] rot]; cbn in Hr; subst rot.
  cbn in Hin. destruct Hin as [<-|[<-|[<-|[<-|[]]]]]; do 4 eexists; reflexivity.
Qed.

(** The earlier [setJsonUVs] never looks at the rotation of a face. *)
Lemma setJsonUVs_earlier_rotation (f g : FaceUVs) :
  uv (north f) = uv (north g) -> uv (east f) = uv (east g) ->
  uv (south f) = uv (south g) -> uv (west f) = uv (west g) ->
  uv (up f) = uv (up g) -> uv (down f) = uv (down g) ->
  setJsonUVs_earlier f = setJsonUVs_earlier g.
Proof.
  intros Hn He Hs Hw Hu Hd. unfold setJsonUVs_earlier.
  rewrite Hn, He, Hs, Hw, Hu, Hd. reflexivity.
Qed.

(** On unrotated faces the two copies agree except for the order of the
    down face. *)
Lemma setJsonUVs_earlier_unrotated (f : FaceUVs) :
  Forall (fun face => rotation face = None)
         [north f; east f; south f; west f; up f; down f] ->
  take 12 (setJsonUVs f) = take 12 (setJsonUVs_earlier f) /\
  drop 16 (setJsonUVs f) = drop 16 (setJsonUVs_earlier f).
Proof.
  intros H.
  repeat match goal with
  | H : Forall _ (_ :: _) |- _ => inversion H; clear H; subst
  end.
  destruct f as [n e s w u d].
  destruct n as [[[[? ?] ?] ?] ?], e as [[[[? ?] ?] ?] ?], s as [[[[? ?] ?] ?] ?],
           w as [[[[? ?] ?] ?] ?], u as [[[[? ?] ?] ?] ?], d as [[[[? ?] ?] ?] ?].
  cbn in *. subst. split; reflexivity.
Qed.

(** ** Pixel regions: copyImage, hasTransparency and their callers *)

Section AtlasRegions.
Open Scope Z_scope.

Lemma zget_nonneg (d : list Z) (n : Z) : 0 <= n -> zget d n = d !! Z.to_nat n.
Proof. intros H. unfold zget. destruct (Z.ltb_spec n 0); [lia|reflexivity]. Qed.

Lemma zset_length (d : list Z) (i : Z) (v : option Z) : length (zset d i v) = length d.
Proof. unfold zset. destruct (i <? 0); [reflexivity|apply length_insert]. Qed.

Create Rewrite HintDb pixels.
#[local] Hint Rewrite zset_length : pixels.

Lemma zget_zset (d : list Z) (i n : Z) (v : option Z) :
  0 <= i < Z.of_nat (length d) ->
  zget (zset d i v) n = if Z.eq_dec n i then Some (default 0 v) else zget d n.
Proof.
  intros H. unfold zget, zset.
  destruct (Z.ltb_spec i 0); [lia|].
  destruct (Z.eq_dec n i) as [->|Hne].
  - destruct (Z.ltb_spec i 0); [lia|]. apply list_lookup_insert_eq. lia.
  - destruct (Z.ltb_spec n 0); [reflexivity|]. apply list_lookup_insert_ne. lia.
Qed.

Lemma zget_default (d : list Z) (n : Z) :
  0 <= n < Z.of_nat (length d) -> Some (default 0 (zget d n)) = zget d n.
Proof.
  intros H. rewrite zget_nonneg by lia.
  destruct (lookup_lt_is_Some_2 d (Z.to_nat n)) as [v ->]; [lia|reflexivity].
Qed.

Ltac split_ifs :=
  repeat match goal with
  | |- context [ if ?c then _ else _ ] =>
      let E := fresh "Hc" in destruct c eqn:E;
      rewrite ?andb_true_iff, ?andb_false_iff, ?orb_true_iff, ?orb_false_iff,
              ?Z.eqb_eq, ?Z.eqb_neq, ?Z.leb_le, ?Z.ltb_lt, ?Z.leb_gt, ?Z.ltb_ge in E
  end.

(** *** The mirroring loops of [copyImage] on a [w] x [h] pixel array *)

Section Mirror.
Variables w h : Z.
Hypothesis Hw : 0 <= w.

Lemma pixel_index_bound (i j : Z) :
  0 <= i < w -> 0 <= j < h -> 0 <= i + j * w < w * h.
Proof. intros Hi Hj. nia. Qed.

Lemma pixel_index_neq (i j i' j' : Z) :
  0 <= i < w -> 0 <= i' < w -> i <> i' \/ j <> j' -> i + j * w <> i' + j' * w.
Proof.
  intros Hi Hi' Hne E.
  destruct (Z.lt_total j j') as [Hlt|[->|Hlt]].
  - assert (w <= (j' - j) * w) by nia. lia.
  - lia.
  - assert (w <= (j - j') * w) by nia. lia.
Qed.

(** One round of the inner loop exchanges the four bytes at [a] with the
    four bytes at [b]. *)
Lemma swapStep_zget (y x : Z) (d : list Z) (n : Z) :
  let a := (x + y * w) * 4 in
  let b := ((w - x - 1) + y * w) * 4 in
  0 <= a -> a + 3 < Z.of_nat (length d) -> 0 <= b -> b + 3 < Z.of_nat (length d) ->
  length (swapStep w y d x) = length d /\
  zget (swapStep w y d x) n =
    zget d (if (a <=? n) && (n <? a + 4) then n - a + b
            else if (b <=? n) && (n <? b + 4) then n - b + a else n).
Proof.
  intros a b Ha Ha' Hb Hb'. unfold swapStep. fold a b.
  split; [autorewrite with pixels; reflexivity|].
  assert (a = b \/ a + 4 <= b \/ b + 4 <= a) as Hab by (unfold a, b; lia).
  rewrite !zget_zset by (autorewrite with pixels; lia).
  repeat (destruct (Z.eq_dec _ _) as [->|?];
          [rewrite zget_default by lia; split_ifs; first [f_equal; lia|lia]|]).
  split_ifs; first [f_equal; lia|lia].
Qed.

(** Invariant of the inner loop after its first [n] rounds on row [y]: the
    [n] outermost columns on either side of that row are exchanged,
    everything else is in place. *)
Lemma flipRow_prefix (n : nat) (y : Z) (d : list Z) :
  0 <= y < h -> Z.of_nat n <= (w + 1) / 2 -> Z.of_nat (length d) = 4 * (w * h) ->
  let d' := fold_left (swapStep w y) (seqZ 0 (Z.of_nat n)) d in
  length d' = length d /\
  forall i j c, 0 <= i < w -> 0 <= j < h -> 0 <= c < 4 ->
    zget d' ((i + j * w) * 4 + c) =
    zget d (((if (j =? y) && ((i <? Z.of_nat n) || (w - Z.of_nat n <=? i)) then w - 1 - i else i)
             + j * w) * 4 + c).
Proof.
  intros Hy. induction n as [|n IH]; intros Hn Hlen.
  - cbn. split; [reflexivity|]. intros i j c Hi Hj Hc.
    split_ifs; try reflexivity. lia.
  - destruct IH as [IHlen IH]; [lia|exact Hlen|].
    rewrite seqZ_S, fold_left_app. cbn [fold_left]. rewrite Z.add_0_l.
    set (d' := fold_left (swapStep w y) (seqZ 0 (Z.of_nat n)) d) in *.
    assert (Hn' : 2 * Z.of_nat n + 1 <= w).
    { assert (2 * ((w + 1) / 2) <= w + 1) by (apply Z.mul_div_le; lia). lia. }
    pose proof (pixel_index_bound (Z.of_nat n) y ltac:(lia) Hy) as Ba.
    pose proof (pixel_index_bound (w - Z.of_nat n - 1) y ltac:(lia) Hy) as Bb.
    split.
    + rewrite <- IHlen.
      apply (swapStep_zget y (Z.of_nat n) d' 0); lia.
    + intros i j c Hi Hj Hc.
      destruct (swapStep_zget y (Z.of_nat n) d' ((i + j * w) * 4 + c)) as [_ ->]; try lia.
      destruct (Z.eq_dec j y) as [->|Hjy].
      * destruct (Z.eq_dec i (Z.of_nat n)) as [->|Hin].
        { replace ((Z.of_nat n + y * w) * 4 + c - (Z.of_nat n + y * w) * 4
                   + (w - Z.of_nat n - 1 + y * w) * 4)
            with ((w - Z.of_nat n - 1 + y * w) * 4 + c) by lia.
          split_ifs; try lia.
          all: rewrite IH by lia; split_ifs; try lia; f_equal; lia. }
        destruct (Z.eq_dec i (w - Z.of_nat n - 1)) as [->|Hin'].
        { pose proof (pixel_index_neq (w - Z.of_nat n - 1) y (Z.of_nat n) y
                        ltac:(lia) ltac:(lia) ltac:(lia)) as Hne.
          split_ifs; try lia.
          all: replace ((w - Z.of_nat n - 1 + y * w) * 4 + c - (w - Z.of_nat n - 1 + y * w) * 4
                        + (Z.of_nat n + y * w) * 4)
                 with ((Z.of_nat n + y * w) * 4 + c) by lia.
          all: rewrite IH by lia; split_ifs; try lia; f_equal; lia. }
        pose proof (pixel_index_neq i y (Z.of_nat n) y ltac:(lia) ltac:(lia) ltac:(lia)).
        pose proof (pixel_index_neq i y (w - Z.of_nat n - 1) y ltac:(lia) ltac:(lia) ltac:(lia)).
        split_ifs; try lia.
        all: rewrite IH by lia; split_ifs; try lia; f_equal; lia.
      * pose proof (pixel_index_neq i j (Z.of_nat n) y ltac:(lia) ltac:(lia) ltac:(lia)).
        pose proof (pixel_index_neq i j (w - Z.of_nat n - 1) y ltac:(lia) ltac:(lia) ltac:(lia)).
        split_ifs; try lia.
        all: rewrite IH by lia; split_ifs; try lia; f_equal; lia.
Qed.

(** The whole inner loop mirrors row [y]. *)
Lemma flipRow_zget (y : Z) (d : list Z) :
  0 <= y < h -> Z.of_nat (length d) = 4 * (w * h) ->
  length (flipRow w d y) = length d /\
  forall i j c, 0 <= i < w -> 0 <= j < h -> 0 <= c < 4 ->
    zget (flipRow w d y) ((i + j * w) * 4 + c) =
    zget d (((if j =? y then w - 1 - i else i) + j * w) * 4 + c).
Proof.
  intros Hy Hlen. unfold flipRow, range.
  assert (Hn : 0 <= (w + 1) / 2) by (apply Z.div_pos; lia).
  assert (Hn2 : w < 2 * ((w + 1) / 2) + 1).
  { pose proof (Z.mul_succ_div_gt (w + 1) 2 ltac:(lia)). lia. }
  replace (seqZ 0 ((w + 1) / 2)) with (seqZ 0 (Z.of_nat (Z.to_nat ((w + 1) / 2))))
    by (rewrite Z2Nat.id by exact Hn; reflexivity).
  destruct (flipRow_prefix (Z.to_nat ((w + 1) / 2)) y d Hy ltac:(lia) Hlen) as [Hl H].
  split; [exact Hl|].
  intros i j c Hi Hj Hc. rewrite H by assumption.
  rewrite Z2Nat.id by exact Hn.
  split_ifs; try reflexivity; lia.
Qed.

(** Invariant of the outer loop: the first [m] rows are mirrored. *)
Lemma flipRows_prefix (m : nat) (d : list Z) :
  Z.of_nat m <= h -> Z.of_nat (length d) = 4 * (w * h) ->
  let d' := fold_left (flipRow w) (seqZ 0 (Z.of_nat m)) d in
  length d' = length d /\
  forall i j c, 0 <= i < w -> 0 <= j < h -> 0 <= c < 4 ->
    zget d' ((i + j * w) * 4 + c) =
    zget d (((if j <? Z.of_nat m then w - 1 - i else i) + j * w) * 4 + c).
Proof.
  induction m as [|m IH]; intros Hm Hlen.
  - cbn. split; [reflexivity|]. intros i j c Hi Hj Hc.
    split_ifs; try reflexivity. lia.
  - destruct IH as [IHlen IH]; [lia|exact Hlen|].
    rewrite seqZ_S, fold_left_app. cbn [fold_left]. rewrite Z.add_0_l.
    set (d' := fold_left (flipRow w) (seqZ 0 (Z.of_nat m)) d) in *.
    destruct (flipRow_zget (Z.of_nat m) d' ltac:(lia) ltac:(lia)) as [Hl H].
    split; [lia|].
    intros i j c Hi Hj Hc. rewrite H by assumption.
    split_ifs; rewrite IH by lia; split_ifs; try lia; f_equal; lia.
Qed.

(** After both loops every row is mirrored. *)
Lemma flipRows_zget (d : list Z) :
  0 <= h -> Z.of_nat (length d) = 4 * (w * h) ->
  length (flipRows w h d) = length d /\
  forall i j c, 0 <= i < w -> 0 <= j < h -> 0 <= c < 4 ->
    zget (flipRows w h d) ((i + j * w) * 4 + c) = zget d ((w - 1 - i + j * w) * 4 + c).
Proof.
  intros Hh Hlen. unfold flipRows, range.
  replace (seqZ 0 h) with (seqZ 0 (Z.of_nat (Z.to_nat h)))
    by (rewrite Z2Nat.id by exact Hh; reflexivity).
  destruct (flipRows_prefix (Z.to_nat h) d ltac:(lia) Hlen) as [Hl H].
  split; [exact Hl|].
  intros i j c Hi Hj Hc. rewrite H by assumption.
  rewrite Z2Nat.id by exact Hh.
  split_ifs; try reflexivity; lia.
Qed.

End Mirror.

Lemma flat_map_chunks {A B : Type} (f : A -> list B) (k : nat) (l : list A) :
  (forall a, length (f a) = k) ->
  length (flat_map f l) = (length l * k)%nat /\
  forall (i c : nat) (a : A), l !! i = Some a -> (c < k)%nat ->
    flat_map f l !! (i * k + c)%nat = f a !! c.
Proof.
  intros Hk. induction l as [|x l [IHlen IH]]; cbn [flat_map].
  - split; [reflexivity|]. intros i c a H. discriminate H.
  - split; [rewrite length_app, Hk, IHlen; cbn; lia|].
    intros [|i] c a H Hc.
    + cbn in H. inversion H; subst. rewrite lookup_app_l by (rewrite Hk; lia). reflexivity.
    + cbn in H. rewrite lookup_app_r by (rewrite Hk; lia).
      rewrite Hk. replace (S i * k + c - k)%nat with (i * k + c)%nat by lia.
      apply IH; assumption.
Qed.

(** What [getImageData] returns for a proper rectangle: byte [k] of the
    pixel in column [i], row [j] is the channel [k] of the canvas pixel at
    (sx + i, sy + j), read with the out-of-canvas rule. *)
Lemma getImageData_zget (c : Canvas) (sx sy w h : Z) :
  0 < w -> 0 < h ->
  exists img,
    getImageData c sx sy w h = Some img /\
    iwidth img = w /\ iheight img = h /\
    Z.of_nat (length (data img)) = 4 * (w * h) /\
    forall i j k, 0 <= i < w -> 0 <= j < h -> 0 <= k < 4 ->
      zget (data img) ((i + j * w) * 4 + k)
      = pixelBytes (pixelAt c (sx + i) (sy + j)) !! Z.to_nat k.
Proof.
  intros Hw Hh. unfold getImageData.
  destruct (Z.eqb_spec w 0); [lia|]. destruct (Z.eqb_spec h 0); [lia|]. cbn [orb].
  rewrite (Z.abs_eq w), (Z.abs_eq h), (Z.min_l sx), (Z.min_l sy) by lia.
  eexists. split; [reflexivity|]. cbn [iwidth iheight data]. unfold range.
  split; [reflexivity|]. split; [reflexivity|].
  set (row := fun j => flat_map (fun i => pixelBytes (pixelAt c (sx + i) (sy + j))) (seqZ 0 w)).
  assert (Hrow : forall j, length (row j) = (Z.to_nat w * 4)%nat).
  { intros j. unfold row.
    destruct (flat_map_chunks (fun i => pixelBytes (pixelAt c (sx + i) (sy + j))) 4 (seqZ 0 w))
      as [-> _]; [reflexivity|]. rewrite length_seqZ. reflexivity. }
  destruct (flat_map_chunks row (Z.to_nat w * 4) (seqZ 0 h) Hrow) as [Hlen Hget].
  split; [rewrite Hlen, length_seqZ; nia|].
  intros i j k Hi Hj Hk.
  rewrite zget_nonneg by nia.
  replace (Z.to_nat ((i + j * w) * 4 + k))
    with (Z.to_nat j * (Z.to_nat w * 4) + (Z.to_nat i * 4 + Z.to_nat k))%nat by nia.
  rewrite (Hget (Z.to_nat j) _ j).
  - unfold row.
    destruct (flat_map_chunks (fun i => pixelBytes (pixelAt c (sx + i) (sy + j))) 4 (seqZ 0 w))
      as [_ Hin]; [reflexivity|].
    rewrite (Hin (Z.to_nat i) _ i); [reflexivity| |lia].
    rewrite lookup_seqZ_lt by lia. f_equal. lia.
  - rewrite lookup_seqZ_lt by lia. f_equal. lia.
  - nia.
Qed.

Lemma notFF_alpha (a : Z) : notFF (Some a) = true <-> a <> 255.
Proof.
  unfold notFF. rewrite negb_true_iff, Z.eqb_neq. reflexivity.
Qed.

(** [hasTransparency] on a proper rectangle: it does not throw, and it
    answers [true] exactly when some pixel read from the rectangle has an
    alpha channel other than 0xff. *)
Lemma hasTransparency_spec (c : Canvas) (x0 y0 w h : Z) :
  0 < w -> 0 < h ->
  exists b,
    hasTransparency c x0 y0 w h = Some b /\
    (b = true <->
     exists x y, x0 <= x < x0 + w /\ y0 <= y < y0 + h /\ pa (pixelAt c x y) <> 255).
Proof.
  intros Hw Hh.
  destruct (getImageData_zget c x0 y0 w h Hw Hh) as (img & Himg & _ & _ & _ & Hget).
  unfold hasTransparency. rewrite Himg. eexists. split; [reflexivity|].
  unfold range. rewrite existsb_exists. split.
  - intros (x & Hx & Hex). apply existsb_exists in Hex. destruct Hex as (y & Hy & Hxy).
    apply list_elem_of_In, elem_of_seqZ in Hx. apply list_elem_of_In, elem_of_seqZ in Hy.
    rewrite (Hget x y 3) in Hxy by lia. cbn in Hxy. apply notFF_alpha in Hxy.
    exists (x0 + x), (y0 + y). repeat split; first [lia|exact Hxy].
  - intros (x & y & Hx & Hy & Ha).
    exists (x - x0). split; [apply list_elem_of_In, elem_of_seqZ; lia|].
    apply existsb_exists. exists (y - y0). split; [apply list_elem_of_In, elem_of_seqZ; lia|].
    rewrite (Hget (x - x0) (y - y0) 3) by lia. cbn.
    replace (x0 + (x - x0)) with x by lia. replace (y0 + (y - y0)) with y by lia.
    apply notFF_alpha. exact Ha.
Qed.

Lemma orElse_Some (a : bool) (r : option bool) :
  orElse (Some a) r = if a then Some true else r.
Proof. destruct a; reflexivity. Qed.

(** The pixel that [copyImage] with [flipHorizontal] leaves at (x, y): inside
    the destination rectangle (and the canvas) it is the source pixel of the
    mirrored column; elsewhere nothing changes. *)
Lemma copyImage_flip_pixelAt (c : Canvas) (sX sY w h dX dY : Z) :
  0 < w -> 0 < h ->
  exists c',
    copyImage c sX sY w h dX dY true = Some c' /\
    cwidth c' = cwidth c /\ cheight c' = cheight c /\
    forall x y,
      pixelAt c' x y =
      if inside c x y && ((dX <=? x) && (x <? dX + w) && (dY <=? y) && (y <? dY + h))
      then pixelAt c (sX + (w - 1 - (x - dX))) (sY + (y - dY))
      else pixelAt c x y.
Proof.
  intros Hw Hh.
  destruct (getImageData_zget c sX sY w h Hw Hh) as (img & Himg & Hiw & Hih & Hlen & Hget).
  destruct (flipRows_zget w h ltac:(lia) (data img) ltac:(lia) Hlen) as [Hflen Hflip].
  unfold copyImage. rewrite Himg. eexists. split; [reflexivity|].
  split; [reflexivity|]. split; [reflexivity|].
  intros x y. unfold pixelAt at 1. unfold inside at 1.
  cbn [putImageData cwidth cheight bitmap iwidth iheight].
  fold (inside c x y). rewrite Hiw, Hih.
  destruct (inside c x y) eqn:Hin; cbn [andb]; [|unfold pixelAt; rewrite Hin; reflexivity].
  destruct ((dX <=? x) && (x <? dX + w) && (dY <=? y) && (y <? dY + h)) eqn:Hrect;
    [|unfold pixelAt; rewrite Hin; reflexivity].
  rewrite !andb_true_iff, !Z.leb_le, !Z.ltb_lt in Hrect.
  unfold imagePixel. cbn [data iwidth].
  set (i := x - dX). set (j := y - dY).
  replace (zget (flipRows w h (data img)) ((i + j * w) * 4))
    with (zget (flipRows w h (data img)) ((i + j * w) * 4 + 0)) by (f_equal; lia).
  rewrite !Hflip by (unfold i, j; lia).
  rewrite !Hget by (unfold i, j; lia).
  destruct (pixelAt c (sX + (w - 1 - i)) (sY + j)); reflexivity.
Qed.

Lemma computeSkinScale_multiple (k : Z) : computeSkinScale (64 * k) = k.
Proof. unfold computeSkinScale. rewrite Z.mul_comm. apply Z.div_mul. lia. Qed.

(** C6. For a skin buffer of width 64 k the slim detector returns, and it
    answers slim exactly when one of the four probe regions, scaled by k,
    holds a pixel whose alpha channel is not 0xff; if all four regions are
    fully opaque the answer is classic. *)
Theorem isSlimSkin_detects (c : Canvas) (k : Z) :
  1 <= k ->
  exists b,
    isSlimSkin c (64 * k) = Some b /\
    (b = true <-> exists r, In r probeRegions /\ transparentIn c k r) /\
    ((forall r, In r probeRegions -> ~ transparentIn c k r) -> b = false).
Proof.
  intros Hk. unfold isSlimSkin. rewrite computeSkinScale_multiple.
  destruct (hasTransparency_spec c (50 * k) (16 * k) (2 * k) (4 * k)) as (b1 & E1 & H1); [lia..|].
  destruct (hasTransparency_spec c (54 * k) (20 * k) (2 * k) (12 * k)) as (b2 & E2 & H2); [lia..|].
  destruct (hasTransparency_spec c (42 * k) (48 * k) (2 * k) (4 * k)) as (b3 & E3 & H3); [lia..|].
  destruct (hasTransparency_spec c (46 * k) (52 * k) (2 * k) (12 * k)) as (b4 & E4 & H4); [lia..|].
  cbv zeta. rewrite E1, E2, E3, E4, !orElse_Some.
  exists (b1 || b2 || b3 || b4).
  split; [destruct b1, b2, b3, b4; reflexivity|].
  assert (Hiff : b1 || b2 || b3 || b4 = true <->
                 exists r, In r probeRegions /\ transparentIn c k r).
  { rewrite !orb_true_iff, H1, H2, H3, H4. unfold probeRegions, transparentIn. split.
    - intros [[[H|H]|H]|H];
        [exists (50, 16, 2, 4)|exists (54, 20, 2, 12)|exists (42, 48, 2, 4)|exists (46, 52, 2, 12)];
        (split; [cbn; tauto|exact H]).
    - intros (r & Hin & H). cbn in Hin.
      destruct Hin as [<-|[<-|[<-|[<-|[]]]]]; tauto. }
  split; [exact Hiff|].
  intros Hnone. destruct (b1 || b2 || b3 || b4) eqn:E; [|reflexivity].
  destruct (proj1 Hiff eq_refl) as (r & Hin & H). destruct (Hnone r Hin H).
Qed.

Lemma isSlimSkin_detects_witness :
  1 <= 1 /\
  exists b, isSlimSkin (mkCanvas 64 64 (fun _ _ => mkPixel 0 0 0 255)) (64 * 1) = Some b.
Proof.
  split; [lia|].
  destruct (isSlimSkin_detects (mkCanvas 64 64 (fun _ _ => mkPixel 0 0 0 255)) 1 ltac:(lia))
    as (b & Hb & _).
  exists b. exact Hb.
Defined.

(** The two readings of [copyImage_flip_pixelAt]. *)
Lemma copyImage_flip_cases (c : Canvas) (sX sY w h dX dY : Z) :
  0 < w -> 0 < h ->
  exists c',
    copyImage c sX sY w h dX dY true = Some c' /\
    cwidth c' = cwidth c /\ cheight c' = cheight c /\
    (forall x y, 0 <= x < cwidth c -> 0 <= y < cheight c ->
       dX <= x < dX + w -> dY <= y < dY + h ->
       pixelAt c' x y = pixelAt c (sX + (w - 1 - (x - dX))) (sY + (y - dY))) /\
    (forall x y, ~ (dX <= x < dX + w /\ dY <= y < dY + h) ->
       pixelAt c' x y = pixelAt c x y).
Proof.
  intros Hw Hh.
  destruct (copyImage_flip_pixelAt c sX sY w h dX dY Hw Hh) as (c' & E & Wd & Ht & P).
  exists c'. split; [exact E|]. split; [exact Wd|]. split; [exact Ht|].
  split; intros x y; intros; rewrite P; unfold inside; split_ifs; try reflexivity; lia.
Qed.

Lemma convertSkinTo1_8_unfold (c : Canvas) :
  convertSkinTo1_8 c 64 =
  bindCanvas (copyImage c 4 16 4 4 20 48 true) (fun c =>
  bindCanvas (copyImage c 8 16 4 4 24 48 true) (fun c =>
  bindCanvas (copyImage c 0 20 4 12 24 52 true) (fun c =>
  bindCanvas (copyImage c 4 20 4 12 20 52 true) (fun c =>
  bindCanvas (copyImage c 8 20 4 12 16 52 true) (fun c =>
  bindCanvas (copyImage c 12 20 4 12 28 52 true) (fun c =>
  bindCanvas (copyImage c 44 16 4 4 36 48 true) (fun c =>
  bindCanvas (copyImage c 48 16 4 4 40 48 true) (fun c =>
  bindCanvas (copyImage c 40 20 4 12 40 52 true) (fun c =>
  bindCanvas (copyImage c 44 20 4 12 36 52 true) (fun c =>
  bindCanvas (copyImage c 48 20 4 12 32 52 true) (fun c =>
  copyImage c 52 20 4 12 44 52 true))))))))))).
Proof. reflexivity. Qed.

Lemma bindCanvas_Some (c : Canvas) (f : Canvas -> option Canvas) :
  bindCanvas (Some c) f = f c.
Proof. reflexivity. Qed.

Ltac copy_step :=
  match goal with
  | |- context [ copyImage ?c ?sX ?sY ?w ?h ?dX ?dY true ] =>
      let c' := fresh "c" in
      let E := fresh "E" in
      let Wd := fresh "Wd" in
      let Ht := fresh "Ht" in
      let Pin := fresh "Pin" in
      let Pout := fresh "Pout" in
      destruct (copyImage_flip_cases c sX sY w h dX dY) as (c' & E & Wd & Ht & Pin & Pout);
      [lia | lia | rewrite E, ?bindCanvas_Some]
  end.

Ltac unfold_pixels :=
  repeat match goal with
  | Pout : forall x y, ~ _ -> pixelAt ?c x y = _ |- context [ pixelAt ?c ?x ?y ] =>
      rewrite (Pout x y) by lia
  | Pin : forall x y, _ -> _ -> _ -> _ -> pixelAt ?c x y = _ |- context [ pixelAt ?c ?x ?y ] =>
      rewrite (Pin x y) by lia
  end.

(** C5, amended. On a canvas of width 64 and height at least 64 the legacy
    upgrade returns a canvas of the same size in which every destination
    rectangle holds the horizontally mirrored pixels of its source
    rectangle, and every pixel outside the twelve destination rectangles is
    what it was. *)
Theorem convertSkinTo1_8_mirrors (c : Canvas) :
  cwidth c = 64 -> 64 <= cheight c ->
  exists c',
    convertSkinTo1_8 c 64 = Some c' /\
    cwidth c' = cwidth c /\ cheight c' = cheight c /\
    (forall sX sY w h dX dY, In (sX, sY, w, h, dX, dY) upgradeRules ->
       forall i j, 0 <= i < w -> 0 <= j < h ->
         pixelAt c' (dX + i) (dY + j) = pixelAt c (sX + (w - 1 - i)) (sY + j)) /\
    (forall x y,
       (forall sX sY w h dX dY, In (sX, sY, w, h, dX, dY) upgradeRules ->
          ~ (dX <= x < dX + w /\ dY <= y < dY + h)) ->
       pixelAt c' x y = pixelAt c x y).
Proof.
  intros Hwidth Hheight.
  rewrite convertSkinTo1_8_unfold.
  do 12 copy_step.
  eexists. split; [reflexivity|].
  split; [congruence|]. split; [congruence|].
  split.
  - intros sX sY w h dX dY Hin i j Hi Hj. cbn in Hin.
    decompose [or] Hin; try contradiction;
      match goal with H : (_, _) = (_, _) |- _ => inversion H; subst; clear H end;
      unfold_pixels; f_equal; lia.
  - intros x y Hout.
    assert (Hall : Forall (fun r => let '(sX, sY, w, h, dX, dY) := r in
                           ~ (dX <= x < dX + w /\ dY <= y < dY + h)) upgradeRules).
    { apply Forall_forall. intros [[[[[sX sY] w] h] dX] dY] Hin.
      apply (Hout sX sY w h dX dY). apply list_elem_of_In. exact Hin. }
    unfold upgradeRules in Hall.
    repeat match goal with
    | H : Forall _ (_ :: _) |- _ => inversion H; clear H; subst
    end.
    repeat match goal with
    | Pout : forall x y, ~ _ -> pixelAt ?c x y = _ |- context [ pixelAt ?c x y ] =>
        rewrite (Pout x y) by assumption
    end.
    reflexivity.
Qed.

Lemma convertSkinTo1_8_mirrors_witness :
  let c := mkCanvas 64 64 (fun x y => mkPixel x y 7 255) in
  cwidth c = 64 /\ 64 <= cheight c /\
  exists c', convertSkinTo1_8 c 64 = Some c' /\ pixelAt c' 20 48 = pixelAt c 7 16.
Proof.
  intros c. split; [reflexivity|]. split; [cbn; lia|].
  destruct (convertSkinTo1_8_mirrors c eq_refl ltac:(cbn; lia)) as (c' & E & _ & _ & Hm & _).
  exists c'. split; [exact E|].
  exact (Hm 4 16 4 4 20 48 (or_introl eq_refl) 0 0 ltac:(lia) ltac:(lia)).
Defined.

(** C5 does not hold for every buffer of width 64: on a 64 x 32 canvas
    (the legacy half-height layout) the destination rows 48 .. 63 do not
    exist; the upgrade writes nothing, and reading the first destination
    pixel back gives transparent black instead of the mirrored source
    pixel, which is opaque white here. *)
Lemma convertSkinTo1_8_half_height :
  let c := mkCanvas 64 32 (fun _ _ => mkPixel 255 255 255 255) in
  option_map (fun c' => pixelAt c' 20 48) (convertSkinTo1_8 c 64) = Some transparentBlack /\
  pixelAt c 7 16 = mkPixel 255 255 255 255 /\
  option_map (fun c' => pixelAt c' 20 48) (convertSkinTo1_8 c 64) <> Some (pixelAt c 7 16).
Proof.
  split; [vm_compute; reflexivity|]. split; [vm_compute; reflexivity|].
  vm_compute. discriminate.
Qed.

End AtlasRegions.

(** ** Elytra, slim toggle, back equipment *)

(** C7. [updateRightWing] mirrors the left wing: the right wing gets
    position x negated, position y copied, rotation x copied, rotation y
    and z negated; the left wing and the right wing's position z stay as
    they were. *)
Theorem updateRightWing_mirror (e : ElytraObject) :
  let l := leftWing e in
  let r := rightWing (updateRightWing e) in
  (vx (wing_position r) = - vx (wing_position l))%R /\
  vy (wing_position r) = vy (wing_position l) /\
  vx (wing_rotation r) = vx (wing_rotation l) /\
  (vy (wing_rotation r) = - vy (wing_rotation l))%R /\
  (vz (wing_rotation r) = - vz (wing_rotation l))%R /\
  vz (wing_position r) = vz (wing_position (rightWing e)) /\
  leftWing (updateRightWing e) = l.
Proof.
  destruct e as [[lp lr] [rp rr] vis]; cbn.
  repeat split.
Qed.

(** The listeners only read the slim flag and write the arm fields. *)
Lemma set_modelType_slim (v : ModelType) (s : SkinObject) :
  get_modelType (set_modelType v s) = v.
Proof. destruct v; reflexivity. Qed.

(** C8. Setting [modelType] to the same value twice gives exactly the state
    that setting it once gives: scale and uv attribute of both layers of
    both arms, both pivot positions, and the flag. *)
Theorem set_modelType_idempotent (v : ModelType) (s : SkinObject) :
  set_modelType v (set_modelType v s) = set_modelType v s.
Proof.
  destruct s as [fl ra ra2 rp la la2 lp hc].
  destruct v; reflexivity.
Qed.

(** C10. Reading [backEquipment] after assigning [v] returns [v]; the cape
    is visible exactly for ["cape"], the elytra exactly for ["elytra"], so
    never both. *)
Theorem backEquipment_set_get (v : option BackEquipment) (p : PlayerObject) :
  let p' := set_backEquipment v p in
  get_backEquipment p' = v /\
  (cape_visible (cape p') = true <-> v = Some BackCape) /\
  (elytra_visible (elytra p') = true <-> v = Some BackElytra) /\
  cape_visible (cape p') && elytra_visible (elytra p') = false.
Proof.
  destruct v as [[|]|]; cbn; repeat split; intros; congruence.
Qed.

(** ** The cuboid-model interpreter *)

Section BoundingBox.
Open Scope Q_scope.

Lemma fold_min_point ps p :
  let m := fold_left (fun m q => mkPoint (Qmin (px m) (px q)) (Qmin (py m) (py q)) (Qmin (pz m) (pz q))) ps p in
  px m = fold_left Qmin (map px ps) (px p) /\
  py m = fold_left Qmin (map py ps) (py p) /\
  pz m = fold_left Qmin (map pz ps) (pz p).
Proof.
  revert p. induction ps as [|q ps IH]; intros p; cbn; [repeat split|].
  apply (IH (mkPoint _ _ _)).
Qed.

Lemma fold_max_point ps p :
  let m := fold_left (fun m q => mkPoint (Qmax (px m) (px q)) (Qmax (py m) (py q)) (Qmax (pz m) (pz q))) ps p in
  px m = fold_left Qmax (map px ps) (px p) /\
  py m = fold_left Qmax (map py ps) (py p) /\
  pz m = fold_left Qmax (map pz ps) (pz p).
Proof.
  revert p. induction ps as [|q ps IH]; intros p; cbn; [repeat split|].
  apply (IH (mkPoint _ _ _)).
Qed.

Lemma fold_Qmin_eq (L : Q) (xs : list Q) (x0 : Q) :
  Forall (Qle L) (x0 :: xs) ->
  Exists (fun e => e <= L) (x0 :: xs) ->
  fold_left Qmin xs x0 == L.
Proof.
  revert x0. induction xs as [|x xs IH]; intros x0 Hall Hex; cbn.
  - inversion Hall; subst. inversion Hex as [? ? He|? ? He]; subst.
    + apply Qle_antisym; assumption.
    + inversion He.
  - inversion Hall as [|? ? H0 Hall']; subst. inversion Hall' as [|? ? H1 Hall'']; subst.
    apply IH.
    + constructor; [apply Q.min_glb; assumption|assumption].
    + inversion Hex as [? ? He|? ? He]; subst.
      * left. eapply Qle_trans; [apply Q.le_min_l|exact He].
      * inversion He as [? ? He'|? ? He']; subst.
        -- left. eapply Qle_trans; [apply Q.le_min_r|exact He'].
        -- right. exact He'.
Qed.

Lemma fold_Qmax_eq (U : Q) (xs : list Q) (x0 : Q) :
  Forall (fun e => e <= U) (x0 :: xs) ->
  Exists (Qle U) (x0 :: xs) ->
  fold_left Qmax xs x0 == U.
Proof.
  revert x0. induction xs as [|x xs IH]; intros x0 Hall Hex; cbn.
  - inversion Hall; subst. inversion Hex as [? ? He|? ? He]; subst.
    + apply Qle_antisym; assumption.
    + inversion He.
  - inversion Hall as [|? ? H0 Hall']; subst. inversion Hall' as [|? ? H1 Hall'']; subst.
    apply IH.
    + constructor; [apply Q.max_lub; assumption|assumption].
    + inversion Hex as [? ? He|? ? He]; subst.
      * left. eapply Qle_trans; [exact He|apply Q.le_max_l].
      * inversion He as [? ? He'|? ? He']; subst.
        -- left. eapply Qle_trans; [exact He'|apply Q.le_max_r].
        -- right. exact He'.
Qed.

End BoundingBox.

Ltac q_arith :=
  unfold Qdiv; change (/ 1)%Q with 1%Q; change (/ 2)%Q with (1 # 2)%Q; Lqa.lra.

Ltac fold_bound :=
  first [apply fold_Qmin_eq | apply fold_Qmax_eq];
  [ repeat (constructor; [q_arith|]); constructor
  | repeat first [ apply Exists_cons_hd; q_arith | apply Exists_cons_tl ] ].

Section Interpreter.
Open Scope Q_scope.

(** The bounding box of the geometry built for a pair of corners. *)
Lemma element_box_bounds (xDif yDif zDif xPos yPos zPos : Q) :
  let box := translate (translate (newBoxGeometry (Qabs xDif) (Qabs yDif) (Qabs zDif))
                          (0.5 * xDif) (0.5 * yDif) (0.5 * zDif)) xPos yPos zPos in
  exists lo hi,
    boundingBox box = Some (lo, hi) /\
    pointEq lo (mkPoint (xPos + xDif / 2 - Qabs xDif / 2) (yPos + yDif / 2 - Qabs yDif / 2)
                        (zPos + zDif / 2 - Qabs zDif / 2)) /\
    pointEq hi (mkPoint (xPos + xDif / 2 + Qabs xDif / 2) (yPos + yDif / 2 + Qabs yDif / 2)
                        (zPos + zDif / 2 + Qabs zDif / 2)).
Proof.
  pose proof (Qabs_nonneg xDif) as Hx.
  pose proof (Qabs_nonneg yDif) as Hy.
  pose proof (Qabs_nonneg zDif) as Hz.
  cbn zeta. unfold boundingBox, newBoxGeometry, translate.
  cbn [vertices map app buildPlane flat_map setComponent px py pz].
  do 2 eexists. split; [reflexivity|].
  split.
  - match goal with |- pointEq (fold_left ?f ?ps ?p) _ =>
      destruct (fold_min_point ps p) as (Ex & Ey & Ez) end.
    cbn zeta in Ex, Ey, Ez.
    unfold pointEq. rewrite Ex, Ey, Ez. cbn [map px py pz].
    repeat split; fold_bound.
  - match goal with |- pointEq (fold_left ?f ?ps ?p) _ =>
      destruct (fold_max_point ps p) as (Ex & Ey & Ez) end.
    cbn zeta in Ex, Ey, Ez.
    unfold pointEq. rewrite Ex, Ey, Ez. cbn [map px py pz].
    repeat split; fold_bound.
Qed.

(** C3. For an element with corners [from] and [to] and no rotation the
    interpreter adds one mesh whose box has dimensions |to - from| per
    axis; the vertices of its geometry span exactly that size around the
    centre from + (to - from) / 2, and the mesh itself stays at the origin
    with the identity orientation, so that centre is the box's place in
    document space.  In particular from = [0, 0, 0], to = [2, 2, 2] gives a
    2 x 2 x 2 box centred at (1, 1, 1). *)
Theorem elementMesh_unrotated_box :
  (forall (texture : Texture) (from0 from1 from2 to0 to1 to2 : Q) (faces : FaceUVs),
     let element := mkElement (from0, from1, from2) (to0, to1, to2) None faces in
     let mesh := elementMesh texture element in
     updateModel [] (Some (mkDocument (Some [element]))) texture = [mesh] /\
     parameters (mesh_geometry mesh)
       = (Qabs (to0 - from0), Qabs (to1 - from1), Qabs (to2 - from2)) /\
     (exists lo hi,
        boundingBox (mesh_geometry mesh) = Some (lo, hi) /\
        pointEq (boxSize (lo, hi))
                (mkPoint (Qabs (to0 - from0)) (Qabs (to1 - from1)) (Qabs (to2 - from2))) /\
        pointEq (boxCenter (lo, hi))
                (mkPoint (from0 + (to0 - from0) / 2) (from1 + (to1 - from1) / 2)
                         (from2 + (to2 - from2) / 2))) /\
     mesh_position mesh = zeroVector /\
     mesh_quaternion mesh = identityQuaternion) /\
  (forall (texture : Texture) (faces : FaceUVs),
     let mesh := elementMesh texture (mkElement (0, 0, 0) (2, 2, 2) None faces) in
     parameters (mesh_geometry mesh) = (2, 2, 2) /\
     exists lo hi,
       boundingBox (mesh_geometry mesh) = Some (lo, hi) /\
       pointEq (boxSize (lo, hi)) (mkPoint 2 2 2) /\
       pointEq (boxCenter (lo, hi)) (mkPoint 1 1 1)).
Proof.
  split.
  - intros texture from0 from1 from2 to0 to1 to2 faces element mesh.
    destruct (element_box_bounds (to0 - from0) (to1 - from1) (to2 - from2) from0 from1 from2)
      as (lo & hi & Hbb & (L1 & L2 & L3) & (U1 & U2 & U3)).
    cbn zeta in Hbb.
    split; [reflexivity|]. split; [reflexivity|].
    split; [|split; reflexivity].
    exists lo, hi. split; [exact Hbb|].
    unfold pointEq, boxSize, boxCenter. cbn [px py pz] in *.
    rewrite L1, L2, L3, U1, U2, U3.
    repeat split; q_arith.
  - intros texture faces mesh.
    split; [reflexivity|].
    do 2 eexists. split; [reflexivity|].
    split; vm_compute; auto.
Qed.

End Interpreter.

(** *** Rotation about an unsupported axis name *)

Lemma axisVector_unsupported (axisStr : string) :
  axisStr <> "x"%string -> axisStr <> "y"%string -> axisStr <> "z"%string ->
  axisVector axisStr = mkVector3 0 0 0.
Proof.
  intros Hx Hy Hz. unfold axisVector.
  apply String.eqb_neq in Hx, Hy, Hz. rewrite Hx, Hy, Hz. reflexivity.
Qed.

(** What the rotation branch computes from the zero axis: the quaternion
    (0, 0, 0, cos (angle / 2)) is not a unit quaternion, so the offset from
    the pivot is scaled by cos^2 (angle / 2) instead of being kept.  The
    rotation matrix of the mesh is still the identity. *)
Lemma elementMesh_unsupported_axis (texture : Texture) (from to origin : Q * Q * Q)
    (angle : Q) (axisStr : string) (faces : FaceUVs) :
  axisStr <> "x"%string -> axisStr <> "y"%string -> axisStr <> "z"%string ->
  let c := cos (Q2R angle * PI / 180 / 2) in
  let pivot := toVector3 origin in
  let mesh := elementMesh texture
                (mkElement from to (Some (mkElementRotation angle axisStr origin)) faces) in
  mesh_position mesh
    = mkVector3 (vx pivot * (1 - c * c)) (vy pivot * (1 - c * c)) (vz pivot * (1 - c * c)) /\
  mesh_quaternion mesh = mkQuaternion 0 0 0 c /\
  rotationMatrix (mesh_quaternion mesh) = identityMatrix.
Proof.
  intros Hx Hy Hz c pivot.
  destruct from as [[from0 from1] from2], to as [[to0 to1] to2].
  unfold elementMesh. cbn [el_from el_to el_faces el_rotation rot_angle rot_axis rot_origin].
  rewrite (axisVector_unsupported axisStr Hx Hy Hz).
  cbn [mesh_position mesh_quaternion mesh_geometry mesh_uv mesh_map].
  fold pivot.
  unfold applyAxisAngle, applyQuaternion, rotateOnAxis, multiplyQuaternions,
    setFromAxisAngle, sub, add, zeroVector, identityQuaternion, rotationMatrix, identityMatrix.
  cbn [vx vy vz qx qy qz qw]. fold c.
  split; [f_equal; ring|].
  split; [f_equal; ring|].
  repeat (f_equal; try ring).
Qed.

(** The same element with the pivot at the origin is left in place. *)
Lemma elementMesh_unsupported_axis_origin (texture : Texture) (from to : Q * Q * Q)
    (angle : Q) (axisStr : string) (faces : FaceUVs) :
  axisStr <> "x"%string -> axisStr <> "y"%string -> axisStr <> "z"%string ->
  mesh_position (elementMesh texture
     (mkElement from to (Some (mkElementRotation angle axisStr (0, 0, 0)%Q)) faces))
  = zeroVector.
Proof.
  intros Hx Hy Hz.
  destruct (elementMesh_unsupported_axis texture from to (0, 0, 0)%Q angle axisStr faces Hx Hy Hz)
    as (Hpos & _).
  rewrite Hpos. unfold toVector3, zeroVector, Q2R. cbn [vx vy vz Qnum Qden].
  f_equal; field.
Qed.

(** C4, at an element rotated by 180 degrees about the unsupported axis
    name "w" with pivot (8, 0, 8): the interpreter puts the mesh at
    (8, 0, 8) and leaves it the zero quaternion, whereas the same element
    without a rotation stays at the origin with the identity quaternion. *)
Theorem unsupported_axis_moves_mesh :
  let face := mkFace (0, 0, 16, 16)%Q None in
  let faces := mkFaceUVs face face face face face face in
  let rotated := mkElement (0, 0, 0)%Q (2, 2, 2)%Q
                   (Some (mkElementRotation 180%Q "w" (8, 0, 8)%Q)) faces in
  let plain := mkElement (0, 0, 0)%Q (2, 2, 2)%Q None faces in
  mesh_position (elementMesh (mkTexture 0) plain) = mkVector3 0 0 0 /\
  mesh_position (elementMesh (mkTexture 0) rotated) = mkVector3 8 0 8 /\
  mesh_position (elementMesh (mkTexture 0) rotated)
    <> mesh_position (elementMesh (mkTexture 0) plain) /\
  mesh_quaternion (elementMesh (mkTexture 0) plain) = mkQuaternion 0 0 0 1 /\
  mesh_quaternion (elementMesh (mkTexture 0) rotated) = mkQuaternion 0 0 0 0.
Proof.
  intros face faces rotated plain.
  destruct (elementMesh_unsupported_axis (mkTexture 0) (0, 0, 0)%Q (2, 2, 2)%Q (8, 0, 8)%Q
              180%Q "w" faces ltac:(discriminate) ltac:(discriminate) ltac:(discriminate))
    as (Hpos & Hquat & _).
  assert (Hc : cos (Q2R 180 * PI / 180 / 2) = 0%R).
  { replace (Q2R 180 * PI / 180 / 2)%R with (PI / 2)%R; [apply cos_PI2|].
    unfold Q2R. cbn [Qnum Qden]. field. }
  rewrite Hc in Hpos.
  assert (Hpos' : mesh_position (elementMesh (mkTexture 0) rotated) = mkVector3 8 0 8).
  { unfold rotated. rewrite Hpos. unfold toVector3, Q2R. cbn [vx vy vz Qnum Qden].
    f_equal; field. }
  rewrite Hc in Hquat.
  split; [reflexivity|]. split; [exact Hpos'|].
  split; [|split; [reflexivity|exact Hquat]].
  rewrite Hpos'. change (mesh_position (elementMesh (mkTexture 0) plain)) with zeroVector.
  unfold zeroVector. intros E. inversion E. lra.
Qed.

(** ** Accessory slots of the player object *)

Lemma mountBlock_field place entry texture name field target :
  fst (mountBlock place entry texture name field target)
  = match entry with
    | Some (Some canvas) => Some (place (newJsonModelObject texture (model canvas)) name)
    | _ => field
    end.
Proof. destruct entry as [[canvas|]|]; reflexivity. Qed.

Ltac split_blocks :=
  repeat match goal with
  | |- context [ mountBlock ?a ?b ?c ?d ?e ?f ] =>
      let E := fresh "Hblock" in
      pose proof (mountBlock_field a b c d e f) as E;
      destruct (mountBlock a b c d e f) as [? ?]; cbn [fst] in E
  end.

(** No block of the constructor assigns [hat9]: it keeps its initial null
    whatever the hat entries are. *)
Lemma newPlayerObject_hat9 st ct ht hm sbt sbm et hatCanvases sbCanvases :
  hat9 (newPlayerObject st ct ht hm sbt sbm et hatCanvases sbCanvases) = None.
Proof.
  unfold newPlayerObject. cbv zeta.
  split_blocks. reflexivity.
Qed.

(** The first seven blocks fill the slot of their own index; [hat8] holds
    the ninth entry's object when there is one, else the eighth's. *)
Lemma newPlayerObject_hat_slots st ct ht hm sbt sbm et
    (hatCanvases sbCanvases : list (option AccessoryCanvas)) :
  let p := newPlayerObject st ct ht hm sbt sbm et hatCanvases sbCanvases in
  hat1 p = mountedHat ht (hatCanvases !! 0%nat) "hat1" /\
  hat2 p = mountedHat ht (hatCanvases !! 1%nat) "hat2" /\
  hat3 p = mountedHat ht (hatCanvases !! 2%nat) "hat3" /\
  hat4 p = mountedHat ht (hatCanvases !! 3%nat) "hat4" /\
  hat5 p = mountedHat ht (hatCanvases !! 4%nat) "hat5" /\
  hat6 p = mountedHat ht (hatCanvases !! 5%nat) "hat6" /\
  hat7 p = mountedHat ht (hatCanvases !! 6%nat) "hat7" /\
  hat8 p = match hatCanvases !! 8%nat with
           | Some (Some _) => mountedHat ht (hatCanvases !! 8%nat) "hat8"
           | _ => mountedHat ht (hatCanvases !! 7%nat) "hat8"
           end.
Proof.
  unfold newPlayerObject. cbv zeta.
  split_blocks. cbn [hat1 hat2 hat3 hat4 hat5 hat6 hat7 hat8].
  subst. unfold mountedHat.
  repeat split;
    repeat match goal with
    | |- context [ ?l !! ?i ] => destruct (l !! i) as [[?|]|]
    end; reflexivity.
Qed.

(** C9, at a hat list whose only entry is the ninth (index 8): the
    constructor leaves [hat9] null and stores the object, named ["hat8"],
    in [hat8]; the head holds the base hat and that one object. *)
Theorem ninth_hat_entry_lands_in_hat8 :
  let t := mkTexture 0 in
  let canvas := mkAccessoryCanvas (Some (mkDocument (Some []))) in
  let hatCanvases := replicate 8 None ++ [Some canvas] in
  let p := newPlayerObject t t t None t None t hatCanvases (replicate 9 None) in
  hat9 p = None /\
  option_map jm_name (hat8 p) = Some "hat8"%string /\
  map jm_name (headChildren (skin p)) = ["hat"; "hat8"]%string.
Proof.
  cbv zeta. repeat split.
Qed.

(* ===================================================================== *)
(** * Further properties                                                   *)
(* ===================================================================== *)

Import Layout Viewer.

(** ** The fixed-convention projector on any texture *)

Section TextureSizes.
Open Scope Q_scope.
Variables tw th : Q.
Hypothesis Htw : 0 < tw.
Hypothesis Hth : 0 < th.

Lemma unscale_x (x : Q) : x / tw * tw == x.
Proof. field. intros E. rewrite E in Htw. discriminate Htw. Qed.

Lemma unscale_y (y : Q) : (1 - (1 - y / th)) * th == y.
Proof. field. intros E. rewrite E in Hth. discriminate Hth. Qed.

Ltac texel_bound :=
  first [apply Qmin4_eq | apply Qmax4_eq];
  rewrite ?unscale_x, ?unscale_y;
  first [ Lqa.lra
        | left; reflexivity
        | right; left; reflexivity
        | right; right; left; reflexivity
        | right; right; right; reflexivity ].

Lemma faceRects_setUVs (u v width height depth : Q) :
  0 <= width -> 0 <= height -> 0 <= depth ->
  Forall2 rectEquiv (faceRects tw th (setUVs u v width height depth tw th))
                    (unfolding u v width height depth).
Proof.
  intros Hw Hh Hd.
  unfold setUVs, unfolding.
  cbn [faceRects toFaceVertices q0 q1 q2 q3].
  repeat (constructor; [unfold rectEquiv, bbox4, toPixel; cbn [rx1 ry1 rx2 ry2 v2x v2y]; repeat split; texel_bound|]).
  constructor.
Qed.

Lemma unfolding_fits (u v width height depth : Q) :
  0 <= width -> 0 <= height -> 0 <= depth ->
  forallb (inCanvas tw th) (unfolding u v width height depth) = true <->
  0 <= u /\ 0 <= v /\ u + 2 * width + 2 * depth <= tw /\ v + depth + height <= th.
Proof.
  intros Hw Hh Hd. unfold unfolding, inCanvas.
  cbn [forallb rx1 ry1 rx2 ry2].
  rewrite !andb_true_iff, !Qle_bool_iff.
  split.
  - intros H. decompose [and] H. repeat split; Lqa.lra.
  - intros (H1 & H2 & H3 & H4). repeat split; Lqa.lra.
Qed.

End TextureSizes.

(** X1. Whatever the texture size, for a box with non-negative dimensions
    the six face quadrilaterals that [setUVs] writes are, in pixel space,
    the rectangles of the cross unfolding: they never overlap, and they lie
    inside the texture exactly when [0 <= u], [0 <= v],
    [u + 2 width + 2 depth <= textureWidth] and
    [v + depth + height <= textureHeight].  This covers the cape convention
    (64 x 32) and the ears (14 x 7) as well as the skin. *)
Theorem setUVs_faces_fit (tw th u v width height depth : Q) :
  (0 < tw)%Q -> (0 < th)%Q -> (0 <= width)%Q -> (0 <= height)%Q -> (0 <= depth)%Q ->
  let faces := faceRects tw th (setUVs u v width height depth tw th) in
  Forall2 rectEquiv faces (unfolding u v width height depth) /\
  pairwiseDisjoint faces = true /\
  (forallb (inCanvas tw th) faces = true <->
   (0 <= u /\ 0 <= v /\ u + 2 * width + 2 * depth <= tw /\ v + depth + height <= th)%Q).
Proof.
  intros Htw Hth Hw Hh Hd faces.
  pose proof (faceRects_setUVs tw th Htw Hth u v width height depth Hw Hh Hd) as Heq.
  fold faces in Heq.
  split; [exact Heq|]. split.
  - rewrite (pairwiseDisjoint_equiv _ _ Heq). apply unfolding_disjoint; assumption.
  - rewrite (forallb_inCanvas_equiv _ _ _ _ Heq). apply unfolding_fits; assumption.
Qed.

Lemma setUVs_faces_fit_witness :
  forallb (inCanvas 64 32) (faceRects 64 32 (setCapeUVs 0 0 10 16 1)) = true.
Proof.
  destruct (setUVs_faces_fit 64 32 0 0 10 16 1) as (_ & _ & Hc);
    [reflexivity | reflexivity | vm_compute; discriminate .. |].
  apply Hc. repeat split; vm_compute; discriminate.
Defined.

(** ** Rotations outside the four supported values *)

Lemma Qfloor_unique (x : Q) (n : Z) :
  (inject_Z n <= x)%Q -> (x < inject_Z (n + 1))%Q -> Qfloor x = n.
Proof.
  intros Hlo Hhi.
  pose proof (Qfloor_resp_le _ _ Hlo) as H1. rewrite Qfloor_Z in H1.
  pose proof (Qfloor_le x) as H2.
  assert (H3 : (inject_Z (Qfloor x) < inject_Z (n + 1))%Q) by (eapply Qle_lt_trans; eassumption).
  rewrite <- Zlt_Qlt in H3. lia.
Qed.

Lemma rotate_four {T : Type} (n : nat) (a b c d : T) :
  rotate n [a; b; c; d] = [a; b; c; d] \/ rotate n [a; b; c; d] = [b; c; d; a] \/
  rotate n [a; b; c; d] = [c; d; a; b] \/ rotate n [a; b; c; d] = [d; a; b; c].
Proof.
  unfold rotate. cbn [length].
  pose proof (Nat.mod_upper_bound n 4 ltac:(lia)) as Hb.
  destruct (n mod 4)%nat as [|[|[|[|k]]]]; cbn; auto. lia.
Qed.

Lemma jsonFaceVertices_floor (uvRect : Q * Q * Q * Q) (r : Q) :
  (0 <= r)%Q ->
  jsonFaceVertices (mkFace uvRect (Some r))
  = map Some (rotate (Z.to_nat (Qfloor (r / 90))) (unrotatedFaceVertices (mkFace uvRect None))).
Proof.
  intros Hr. unfold jsonFaceVertices. cbn [rotation].
  apply (rotateArray_rotate (unrotatedFaceVertices (mkFace uvRect (Some r)))).
  change 0%Z with (Qfloor 0). apply Qfloor_resp_le.
  unfold Qdiv. change (/ 90)%Q with (1 # 90)%Q. Lqa.lra.
Qed.

(** X2. Every non-negative rotation of a face, supported or not, turns the
    four vertices by [floor (r / 90)] positions: a rotation below 90 leaves
    them as they are, and adding a full turn of 360 changes nothing. *)
Theorem jsonFaceVertices_any_turn (uvRect : Q * Q * Q * Q) (r : Q) :
  (0 <= r)%Q ->
  let unrotated := unrotatedFaceVertices (mkFace uvRect None) in
  jsonFaceVertices (mkFace uvRect (Some r))
    = map Some (rotate (Z.to_nat (Qfloor (r / 90))) unrotated) /\
  jsonFaceVertices (mkFace uvRect (Some (r + 360)%Q)) = jsonFaceVertices (mkFace uvRect (Some r)) /\
  ((r < 90)%Q -> jsonFaceVertices (mkFace uvRect (Some r)) = map Some unrotated).
Proof.
  intros Hr unrotated.
  pose proof (Qfloor_le (r / 90)) as Hlo.
  pose proof (Qlt_floor (r / 90)) as Hhi.
  assert (H0 : (0 <= Qfloor (r / 90))%Z).
  { change 0%Z with (Qfloor 0). apply Qfloor_resp_le.
    unfold Qdiv. change (/ 90)%Q with (1 # 90)%Q. Lqa.lra. }
  split; [apply jsonFaceVertices_floor; exact Hr|].
  split.
  - rewrite !jsonFaceVertices_floor by Lqa.lra.
    assert (E : Qfloor ((r + 360) / 90) = (Qfloor (r / 90) + 4)%Z).
    { apply Qfloor_unique.
      - rewrite inject_Z_plus. unfold Qdiv in *. change (/ 90)%Q with (1 # 90)%Q in *.
        change (inject_Z 4) with 4%Q. Lqa.lra.
      - replace (Qfloor (r / 90) + 4 + 1)%Z with ((Qfloor (r / 90) + 1) + 4)%Z by lia.
        rewrite inject_Z_plus. unfold Qdiv in *. change (/ 90)%Q with (1 # 90)%Q in *.
        change (inject_Z 4) with 4%Q. Lqa.lra. }
    rewrite E. f_equal.
    destruct uvRect as [[[x1 y1] x2] y2]. cbn [unrotatedFaceVertices uv].
    unfold rotate. cbn [length]. f_equal; f_equal.
    all: rewrite Z2Nat.inj_add by lia; change (Z.to_nat 4) with 4%nat;
      rewrite <- (Nat.Div0.add_mod_idemp_r _ 4 4); rewrite Nat.add_0_r; reflexivity.
  - intros Hlt.
    rewrite jsonFaceVertices_floor by exact Hr.
    replace (Qfloor (r / 90)) with 0%Z;
      [destruct uvRect as [[[x1 y1] x2] y2]; reflexivity|].
    symmetry. apply Qfloor_unique.
    + change (inject_Z 0) with 0%Q. unfold Qdiv. change (/ 90)%Q with (1 # 90)%Q. Lqa.lra.
    + change (inject_Z (0 + 1)) with 1%Q. unfold Qdiv. change (/ 90)%Q with (1 # 90)%Q. Lqa.lra.
Qed.

Lemma jsonFaceVertices_any_turn_witness :
  jsonFaceVertices (mkFace (0, 0, 16, 8)%Q (Some (90 + 360)%Q))
  = jsonFaceVertices (mkFace (0, 0, 16, 8)%Q (Some 90%Q)).
Proof.
  apply (jsonFaceVertices_any_turn (0, 0, 16, 8)%Q 90%Q). vm_compute. discriminate.
Defined.

(** X3. A rotation in [-90, 0) is not a turn the other way: the first
    vertex reads [undefined] and the others move one place up, so the uv
    attribute gets v2, v1, (0, 0), v0 for that face. *)
Theorem jsonFaceVertices_negative_quarter (uvRect : Q * Q * Q * Q) (r : Q) :
  (-90 <= r)%Q -> (r < 0)%Q ->
  exists v0 v1 v2 v3,
    unrotatedFaceVertices (mkFace uvRect None) = [v0; v1; v2; v3] /\
    jsonFaceVertices (mkFace uvRect (Some r)) = [None; Some v0; Some v1; Some v2] /\
    copyVector2sArray (map (entry (jsonFaceVertices (mkFace uvRect (Some r)))) [3; 2; 0; 1]%nat)
    = [v2; v1; mkVector2 0 0; v0].
Proof.
  intros Hlo Hhi.
  assert (E : Qfloor (r / 90) = (-1)%Z).
  { apply Qfloor_unique.
    - change (inject_Z (-1)) with (-1)%Q. unfold Qdiv. change (/ 90)%Q with (1 # 90)%Q. Lqa.lra.
    - change (inject_Z (-1 + 1)) with 0%Q. unfold Qdiv. change (/ 90)%Q with (1 # 90)%Q. Lqa.lra. }
  destruct uvRect as [[[x1 y1] x2] y2].
  do 4 eexists. split; [reflexivity|].
  unfold jsonFaceVertices. cbn [rotation]. rewrite E.
  split; reflexivity.
Qed.

Lemma jsonFaceVertices_negative_quarter_witness :
  exists v0 v1 v2 v3,
    unrotatedFaceVertices (mkFace (0, 0, 16, 8)%Q None) = [v0; v1; v2; v3] /\
    jsonFaceVertices (mkFace (0, 0, 16, 8)%Q (Some (-45)%Q)) = [None; Some v0; Some v1; Some v2] /\
    copyVector2sArray (map (entry (jsonFaceVertices (mkFace (0, 0, 16, 8)%Q (Some (-45)%Q)))) [3; 2; 0; 1]%nat)
    = [v2; v1; mkVector2 0 0; v0].
Proof.
  apply (jsonFaceVertices_negative_quarter (0, 0, 16, 8)%Q (-45)%Q); vm_compute; [discriminate|reflexivity].
Defined.

(** ** The region of the texture that a declared face samples *)

Section DeclaredRect.
Open Scope Q_scope.

Lemma jsonFaceVertices_cases (face : Face) :
  rotationDefined face = true ->
  let '(x1, y1, x2, y2) := uv face in
  let v0 := mkVector2 (x1 / 16) (1 - y2 / 16) in
  let v1 := mkVector2 (x2 / 16) (1 - y2 / 16) in
  let v2 := mkVector2 (x2 / 16) (1 - y1 / 16) in
  let v3 := mkVector2 (x1 / 16) (1 - y1 / 16) in
  In (jsonFaceVertices face)
     (map (map Some) [ [v0; v1; v2; v3]; [v1; v2; v3; v0]; [v2; v3; v0; v1]; [v3; v0; v1; v2] ]).
Proof.
  destruct face as [[[[x1 y1] x2] y2] [r|]]; unfold rotationDefined; cbn [rotation uv].
  - intros Hr. apply Qle_bool_iff in Hr.
    rewrite (jsonFaceVertices_floor _ _ Hr). cbn [unrotatedFaceVertices uv].
    match goal with |- context [ rotate ?n [?a; ?b; ?c; ?d] ] =>
      destruct (rotate_four n a b c d) as [E|[E|[E|E]]]; rewrite E end;
      cbn; auto.
  - intros _. left. reflexivity.
Qed.

Ltac face_bound :=
  first [apply Qmin4_eq | apply Qmax4_eq];
  rewrite ?(unscale_x 16 eq_refl), ?(unscale_y 16 eq_refl);
  first [ Lqa.lra
        | left; reflexivity
        | right; left; reflexivity
        | right; right; left; reflexivity
        | right; right; right; reflexivity ].

Lemma face_picks_rect (face : Face) :
  rotationDefined face = true ->
  exists a b c d,
    copyVector2sArray (map (entry (jsonFaceVertices face)) [3; 2; 0; 1]%nat) = [a; b; c; d] /\
    rectEquiv (bbox4 (toPixel 16 16 a) (toPixel 16 16 b) (toPixel 16 16 c) (toPixel 16 16 d))
              (declaredRect face).
Proof.
  intros Hr. pose proof (jsonFaceVertices_cases face Hr) as Hc.
  unfold declaredRect.
  destruct (uv face) as [[[x1 y1] x2] y2]. cbn zeta in Hc.
  destruct (Q.min_spec x1 x2) as [[Hx Ex]|[Hx Ex]];
  destruct (Q.max_spec x1 x2) as [[Hx' Ex']|[Hx' Ex']]; try Lqa.lra;
  destruct (Q.min_spec y1 y2) as [[Hy Ey]|[Hy Ey]];
  destruct (Q.max_spec y1 y2) as [[Hy' Ey']|[Hy' Ey']]; try Lqa.lra.
  all: cbn [In map] in Hc; destruct Hc as [<-|[<-|[<-|[<-|[]]]]];
    cbv [copyVector2sArray entry map mjoin option_join lookup list_lookup from_option Datatypes.id];
    do 4 eexists; (split; [reflexivity|]);
    unfold rectEquiv, bbox4, toPixel; cbn [rx1 ry1 rx2 ry2 v2x v2y];
    rewrite Ex, Ex', Ey, Ey'; repeat split; face_bound.
Qed.

End DeclaredRect.

(** X4. When every face has no rotation or a non-negative one, each face
    of the uv attribute written by [setJsonUVs] spans, in the 16 x 16 face
    space, exactly the rectangle its [uv] declares (corners in either
    order), in the face order east, west, up, down, south, north. *)
Theorem setJsonUVs_samples_declared (f : FaceUVs) :
  forallb rotationDefined [north f; east f; south f; west f; up f; down f] = true ->
  Forall2 rectEquiv (faceRects 16 16 (setJsonUVs f))
          (map declaredRect [east f; west f; up f; down f; south f; north f]).
Proof.
  cbn [forallb]. rewrite !andb_true_iff.
  intros (Hn & He & Hs & Hw & Hu & Hd & _).
  rewrite setJsonUVs_faces. cbv zeta.
  destruct (face_picks_rect _ Hn) as (? & ? & ? & ? & -> & ?).
  destruct (face_picks_rect _ He) as (? & ? & ? & ? & -> & ?).
  destruct (face_picks_rect _ Hs) as (? & ? & ? & ? & -> & ?).
  destruct (face_picks_rect _ Hw) as (? & ? & ? & ? & -> & ?).
  destruct (face_picks_rect _ Hu) as (? & ? & ? & ? & -> & ?).
  destruct (face_picks_rect _ Hd) as (? & ? & ? & ? & -> & ?).
  cbn [app faceRects map].
  repeat (constructor; [assumption|]). constructor.
Qed.

Lemma setJsonUVs_samples_declared_witness :
  let face := mkFace (0, 0, 16, 8)%Q (Some 270%Q) in
  let f := mkFaceUVs face face face face face face in
  Forall2 rectEquiv (faceRects 16 16 (setJsonUVs f))
          (map declaredRect [east f; west f; up f; down f; south f; north f]).
Proof.
  intros face f. apply (setJsonUVs_samples_declared f). reflexivity.
Defined.

(** ** More on pixel regions *)

Section AtlasMore.
Open Scope Z_scope.

Ltac case_ifs :=
  repeat match goal with
  | |- context [ if ?c then _ else _ ] =>
      let E := fresh "Hc" in destruct c eqn:E;
      rewrite ?andb_true_iff, ?andb_false_iff, ?orb_true_iff, ?orb_false_iff,
              ?Z.eqb_eq, ?Z.eqb_neq, ?Z.leb_le, ?Z.ltb_lt, ?Z.leb_gt, ?Z.ltb_ge in E
  end.

(** X5. [copyImage] without mirroring on a proper rectangle returns a
    canvas of the same size in which each pixel of the destination
    rectangle that lies on the canvas holds the source pixel at the same
    offset, read before anything is written (source pixels off the canvas
    read transparent black), and every other pixel is what it was. *)
Theorem copyImage_plain_pixelAt (c : Canvas) (sX sY w h dX dY : Z) :
  0 < w -> 0 < h ->
  exists c',
    copyImage c sX sY w h dX dY false = Some c' /\
    cwidth c' = cwidth c /\ cheight c' = cheight c /\
    forall x y,
      pixelAt c' x y =
      if inside c x y && ((dX <=? x) && (x <? dX + w) && (dY <=? y) && (y <? dY + h))
      then pixelAt c (sX + (x - dX)) (sY + (y - dY))
      else pixelAt c x y.
Proof.
  intros Hw Hh.
  destruct (getImageData_zget c sX sY w h Hw Hh) as (img & Himg & Hiw & Hih & Hlen & Hget).
  unfold copyImage. rewrite Himg. eexists. split; [reflexivity|].
  split; [reflexivity|]. split; [reflexivity|].
  intros x y. unfold pixelAt at 1. unfold inside at 1.
  cbn [putImageData cwidth cheight bitmap iwidth iheight].
  fold (inside c x y). rewrite Hiw, Hih.
  destruct (inside c x y) eqn:Hin; cbn [andb]; [|unfold pixelAt; rewrite Hin; reflexivity].
  destruct ((dX <=? x) && (x <? dX + w) && (dY <=? y) && (y <? dY + h)) eqn:Hrect;
    [|unfold pixelAt; rewrite Hin; reflexivity].
  rewrite !andb_true_iff, !Z.leb_le, !Z.ltb_lt in Hrect.
  unfold imagePixel. rewrite Hiw.
  set (i := x - dX). set (j := y - dY).
  replace (zget (data img) ((i + j * w) * 4))
    with (zget (data img) ((i + j * w) * 4 + 0)) by (f_equal; lia).
  rewrite !Hget by (unfold i, j; lia).
  destruct (pixelAt c (sX + i) (sY + j)); reflexivity.
Qed.

Lemma copyImage_plain_pixelAt_witness :
  let c := mkCanvas 8 8 (fun x y => mkPixel x y 0 255) in
  exists c', copyImage c 0 0 2 2 4 4 false = Some c' /\ pixelAt c' 5 5 = pixelAt c 1 1.
Proof.
  intros c.
  destruct (copyImage_plain_pixelAt c 0 0 2 2 4 4 ltac:(lia) ltac:(lia)) as (c' & E & _ & _ & P).
  exists c'. split; [exact E|]. rewrite P. reflexivity.
Defined.

(** X6. Mirroring a rectangle onto itself twice gives back the canvas, pixel
    for pixel, when the rectangle's columns lie on the canvas. *)
Theorem copyImage_flip_twice (c : Canvas) (x0 y0 w h : Z) :
  0 < w -> 0 < h -> 0 <= x0 -> x0 + w <= cwidth c ->
  exists c1 c2,
    copyImage c x0 y0 w h x0 y0 true = Some c1 /\
    copyImage c1 x0 y0 w h x0 y0 true = Some c2 /\
    cwidth c2 = cwidth c /\ cheight c2 = cheight c /\
    forall x y, pixelAt c2 x y = pixelAt c x y.
Proof.
  intros Hw Hh Hx0 Hx1.
  destruct (copyImage_flip_pixelAt c x0 y0 w h x0 y0 Hw Hh) as (c1 & E1 & W1 & H1 & P1).
  destruct (copyImage_flip_pixelAt c1 x0 y0 w h x0 y0 Hw Hh) as (c2 & E2 & W2 & H2 & P2).
  exists c1, c2. split; [exact E1|]. split; [exact E2|].
  split; [congruence|]. split; [congruence|].
  intros x y. rewrite P2, !P1. unfold inside. rewrite W1, H1.
  case_ifs; try reflexivity; try lia.
  f_equal; lia.
Qed.

Lemma copyImage_flip_twice_witness :
  let c := mkCanvas 8 8 (fun x y => mkPixel x y 0 255) in
  exists c1 c2,
    copyImage c 2 2 3 2 2 2 true = Some c1 /\
    copyImage c1 2 2 3 2 2 2 true = Some c2 /\
    pixelAt c2 2 2 = pixelAt c 2 2.
Proof.
  intros c.
  destruct (copyImage_flip_twice c 2 2 3 2 ltac:(lia) ltac:(lia) ltac:(lia) ltac:(cbn; lia))
    as (c1 & c2 & E1 & E2 & _ & _ & P).
  exists c1, c2. split; [exact E1|]. split; [exact E2|]. apply P.
Defined.


(** ** The legacy upgrade at every scale *)

Lemma convertSkinTo1_8_scaled_unfold (c : Canvas) (k : Z) :
  convertSkinTo1_8 c (64 * k) =
  bindCanvas (copyImage c (4 * k) (16 * k) (4 * k) (4 * k) (20 * k) (48 * k) true) (fun c =>
  bindCanvas (copyImage c (8 * k) (16 * k) (4 * k) (4 * k) (24 * k) (48 * k) true) (fun c =>
  bindCanvas (copyImage c (0 * k) (20 * k) (4 * k) (12 * k) (24 * k) (52 * k) true) (fun c =>
  bindCanvas (copyImage c (4 * k) (20 * k) (4 * k) (12 * k) (20 * k) (52 * k) true) (fun c =>
  bindCanvas (copyImage c (8 * k) (20 * k) (4 * k) (12 * k) (16 * k) (52 * k) true) (fun c =>
  bindCanvas (copyImage c (12 * k) (20 * k) (4 * k) (12 * k) (28 * k) (52 * k) true) (fun c =>
  bindCanvas (copyImage c (44 * k) (16 * k) (4 * k) (4 * k) (36 * k) (48 * k) true) (fun c =>
  bindCanvas (copyImage c (48 * k) (16 * k) (4 * k) (4 * k) (40 * k) (48 * k) true) (fun c =>
  bindCanvas (copyImage c (40 * k) (20 * k) (4 * k) (12 * k) (40 * k) (52 * k) true) (fun c =>
  bindCanvas (copyImage c (44 * k) (20 * k) (4 * k) (12 * k) (36 * k) (52 * k) true) (fun c =>
  bindCanvas (copyImage c (48 * k) (20 * k) (4 * k) (12 * k) (32 * k) (52 * k) true) (fun c =>
  copyImage c (52 * k) (20 * k) (4 * k) (12 * k) (44 * k) (52 * k) true))))))))))).
Proof.
  unfold convertSkinTo1_8. rewrite computeSkinScale_multiple. reflexivity.
Qed.

Ltac scaled_copy_step :=
  match goal with
  | |- context [ copyImage ?c ?sX ?sY ?w ?h ?dX ?dY true ] =>
      let c' := fresh "c" in
      let E := fresh "E" in
      let Wd := fresh "Wd" in
      let Ht := fresh "Ht" in
      let Pin := fresh "Pin" in
      let Pout := fresh "Pout" in
      destruct (copyImage_flip_cases c sX sY w h dX dY) as (c' & E & Wd & Ht & Pin & Pout);
      [lia | lia | rewrite E, ?bindCanvas_Some]
  end.

Ltac scaled_pixels :=
  repeat match goal with
  | Pout : forall x y, ~ _ -> pixelAt ?c x y = _ |- context [ pixelAt ?c ?x ?y ] =>
      rewrite (Pout x y) by lia
  | Pin : forall x y, _ -> _ -> _ -> _ -> pixelAt ?c x y = _ |- context [ pixelAt ?c ?x ?y ] =>
      rewrite (Pin x y) by lia
  end.

Lemma inDestination_false (k x y : Z) :
  existsb (inDestination k x y) upgradeRules = false ->
  Forall (fun r => let '(sX, sY, w, h, dX, dY) := r in
                   ~ (dX * k <= x < dX * k + w * k /\ dY * k <= y < dY * k + h * k)) upgradeRules.
Proof.
  intros H. apply Forall_forall. intros [[[[[sX sY] w] h] dX] dY] Hin Hr.
  apply list_elem_of_In in Hin.
  assert (Hex : existsb (inDestination k x y) upgradeRules = true).
  { apply existsb_exists. eexists. split; [exact Hin|].
    unfold inDestination. rewrite !andb_true_iff, !Z.leb_le, !Z.ltb_lt. lia. }
  congruence.
Qed.

Lemma convertSkinTo1_8_scaled_pixels (c : Canvas) (k : Z) :
  1 <= k -> cwidth c = 64 * k -> 64 * k <= cheight c ->
  exists c',
    convertSkinTo1_8 c (64 * k) = Some c' /\
    cwidth c' = cwidth c /\ cheight c' = cheight c /\
    (forall sX sY w h dX dY, In (sX, sY, w, h, dX, dY) upgradeRules ->
       forall i j, 0 <= i < w * k -> 0 <= j < h * k ->
         pixelAt c' (dX * k + i) (dY * k + j)
         = pixelAt c (sX * k + (w * k - 1 - i)) (sY * k + j)) /\
    (forall x y, existsb (inDestination k x y) upgradeRules = false ->
       pixelAt c' x y = pixelAt c x y).
Proof.
  intros Hk Hwidth Hheight.
  rewrite convertSkinTo1_8_scaled_unfold.
  do 12 scaled_copy_step.
  eexists. split; [reflexivity|].
  split; [congruence|]. split; [congruence|].
  split.
  - intros sX sY w h dX dY Hin i j Hi Hj. cbn in Hin.
    decompose [or] Hin; try contradiction;
      match goal with H : (_, _) = (_, _) |- _ => inversion H; subst; clear H end;
      scaled_pixels; f_equal; lia.
  - intros x y Hout. apply inDestination_false in Hout.
    unfold upgradeRules in Hout.
    repeat match goal with
    | H : Forall _ (_ :: _) |- _ => inversion H; clear H; subst
    end.
    repeat match goal with
    | Pout : forall x y, ~ _ -> pixelAt ?c x y = _ |- context [ pixelAt ?c x y ] =>
        rewrite (Pout x y) by assumption
    end.
    reflexivity.
Qed.


(** Every destination rectangle lies in the rows from [48 k] on. *)
Lemma above_destinations (k x y : Z) :
  y < 48 * k -> existsb (inDestination k x y) upgradeRules = false.
Proof.
  intros Hy. unfold upgradeRules, inDestination. cbn [existsb].
  rewrite !orb_false_iff, !andb_false_iff, !Z.leb_gt, !Z.ltb_ge.
  repeat split; lia.
Qed.

(** X8. The legacy upgrade at every scale: on a canvas of width 64 k and
    height at least 64 k ([k >= 1]) it returns a canvas of the same size in
    which every destination rectangle, scaled by k, holds the horizontally
    mirrored pixels of its scaled source rectangle; pixels outside the
    twelve destinations, in particular every row above 48 k, are
    untouched. *)
Theorem convertSkinTo1_8_every_scale (c : Canvas) (k : Z) :
  1 <= k -> cwidth c = 64 * k -> 64 * k <= cheight c ->
  exists c',
    convertSkinTo1_8 c (64 * k) = Some c' /\
    cwidth c' = cwidth c /\ cheight c' = cheight c /\
    (forall sX sY w h dX dY, In (sX, sY, w, h, dX, dY) upgradeRules ->
       forall i j, 0 <= i < w * k -> 0 <= j < h * k ->
         pixelAt c' (dX * k + i) (dY * k + j)
         = pixelAt c (sX * k + (w * k - 1 - i)) (sY * k + j)) /\
    (forall x y, existsb (inDestination k x y) upgradeRules = false ->
       pixelAt c' x y = pixelAt c x y) /\
    (forall x y, y < 48 * k -> pixelAt c' x y = pixelAt c x y).
Proof.
  intros Hk Hwidth Hheight.
  destruct (convertSkinTo1_8_scaled_pixels c k Hk Hwidth Hheight) as (c' & E & Wd & Ht & Pin & Pout).
  exists c'. repeat (split; [assumption|]).
  intros x y Hy. apply Pout, above_destinations, Hy.
Qed.

Lemma convertSkinTo1_8_every_scale_witness :
  let c := mkCanvas 128 128 (fun x y => mkPixel x y 7 255) in
  exists c', convertSkinTo1_8 c (64 * 2) = Some c' /\ pixelAt c' 40 96 = pixelAt c 15 32.
Proof.
  intros c.
  destruct (convertSkinTo1_8_every_scale c 2 ltac:(lia) eq_refl ltac:(cbn; lia))
    as (c' & E & _ & _ & Hm & _).
  exists c'. split; [exact E|].
  exact (Hm 4 16 4 4 20 48 (or_introl eq_refl) 0 0 ltac:(lia) ltac:(lia)).
Defined.

Lemma inDestination_rule (k x y : Z) :
  existsb (inDestination k x y) upgradeRules = true ->
  exists sX sY w h dX dY i j,
    In (sX, sY, w, h, dX, dY) upgradeRules /\
    0 <= i < w * k /\ 0 <= j < h * k /\ x = dX * k + i /\ y = dY * k + j.
Proof.
  intros H. apply existsb_exists in H.
  destruct H as ([[[[[sX sY] w] h] dX] dY] & Hin & Hd).
  unfold inDestination in Hd. rewrite !andb_true_iff, !Z.leb_le, !Z.ltb_lt in Hd.
  exists sX, sY, w, h, dX, dY, (x - dX * k), (y - dY * k).
  split; [exact Hin|]. lia.
Qed.

Lemma upgradeRules_source_outside (k : Z) sX sY w h dX dY (i j : Z) :
  1 <= k -> In (sX, sY, w, h, dX, dY) upgradeRules ->
  0 <= i < w * k -> 0 <= j < h * k ->
  existsb (inDestination k (sX * k + i) (sY * k + j)) upgradeRules = false.
Proof.
  intros Hk Hin Hi Hj. apply above_destinations. cbn in Hin.
  decompose [or] Hin; try contradiction;
    match goal with H : (_, _) = (_, _) |- _ => inversion H; subst; clear H end; lia.
Qed.

(** X9. Running the upgrade on an upgraded canvas changes no pixel: the
    sources lie above the destinations and are never written. *)
Theorem convertSkinTo1_8_twice (c : Canvas) (k : Z) :
  1 <= k -> cwidth c = 64 * k -> 64 * k <= cheight c ->
  exists c1 c2,
    convertSkinTo1_8 c (64 * k) = Some c1 /\
    convertSkinTo1_8 c1 (64 * k) = Some c2 /\
    forall x y, pixelAt c2 x y = pixelAt c1 x y.
Proof.
  intros Hk Hwidth Hheight.
  destruct (convertSkinTo1_8_scaled_pixels c k Hk Hwidth Hheight)
    as (c1 & E1 & Wd1 & Ht1 & Pin1 & Pout1).
  destruct (convertSkinTo1_8_scaled_pixels c1 k Hk ltac:(congruence) ltac:(lia))
    as (c2 & E2 & Wd2 & Ht2 & Pin2 & Pout2).
  exists c1, c2. split; [exact E1|]. split; [exact E2|].
  intros x y.
  destruct (existsb (inDestination k x y) upgradeRules) eqn:Hd.
  - destruct (inDestination_rule k x y Hd)
      as (sX & sY & w & h & dX & dY & i & j & Hin & Hi & Hj & -> & ->).
    rewrite (Pin2 _ _ _ _ _ _ Hin i j Hi Hj), (Pin1 _ _ _ _ _ _ Hin i j Hi Hj).
    apply Pout1.
    apply (upgradeRules_source_outside k sX sY w h dX dY (w * k - 1 - i) j Hk Hin); lia.
  - apply Pout2. exact Hd.
Qed.

Lemma convertSkinTo1_8_twice_witness :
  let c := mkCanvas 64 64 (fun x y => mkPixel x y 7 255) in
  exists c1 c2,
    convertSkinTo1_8 c (64 * 1) = Some c1 /\
    convertSkinTo1_8 c1 (64 * 1) = Some c2 /\
    pixelAt c2 20 48 = pixelAt c1 20 48.
Proof.
  intros c.
  destruct (convertSkinTo1_8_twice c 1 ltac:(lia) eq_refl ltac:(cbn; lia))
    as (c1 & c2 & E1 & E2 & P).
  exists c1, c2. split; [exact E1|]. split; [exact E2|]. apply P.
Defined.

(** ** The slim detector on canvases of any shape *)

Lemma isSlimSkin_probes (c : Canvas) (k : Z) :
  1 <= k ->
  exists b1 b2 b3 b4,
    isSlimSkin c (64 * k) = Some (b1 || b2 || b3 || b4) /\
    (b1 = true <-> exists x y, 50 * k <= x < 50 * k + 2 * k /\ 16 * k <= y < 16 * k + 4 * k /\
                               pa (pixelAt c x y) <> 255) /\
    (b2 = true <-> exists x y, 54 * k <= x < 54 * k + 2 * k /\ 20 * k <= y < 20 * k + 12 * k /\
                               pa (pixelAt c x y) <> 255) /\
    (b3 = true <-> exists x y, 42 * k <= x < 42 * k + 2 * k /\ 48 * k <= y < 48 * k + 4 * k /\
                               pa (pixelAt c x y) <> 255) /\
    (b4 = true <-> exists x y, 46 * k <= x < 46 * k + 2 * k /\ 52 * k <= y < 52 * k + 12 * k /\
                               pa (pixelAt c x y) <> 255).
Proof.
  intros Hk. unfold isSlimSkin. rewrite computeSkinScale_multiple.
  destruct (hasTransparency_spec c (50 * k) (16 * k) (2 * k) (4 * k)) as (b1 & E1 & H1); [lia..|].
  destruct (hasTransparency_spec c (54 * k) (20 * k) (2 * k) (12 * k)) as (b2 & E2 & H2); [lia..|].
  destruct (hasTransparency_spec c (42 * k) (48 * k) (2 * k) (4 * k)) as (b3 & E3 & H3); [lia..|].
  destruct (hasTransparency_spec c (46 * k) (52 * k) (2 * k) (12 * k)) as (b4 & E4 & H4); [lia..|].
  cbv zeta. rewrite E1, E2, E3, E4, !orElse_Some.
  exists b1, b2, b3, b4.
  split; [destruct b1, b2, b3, b4; reflexivity|].
  repeat split; tauto.
Qed.

Lemma pixelAt_outside (c : Canvas) (x y : Z) :
  cwidth c <= x \/ cheight c <= y -> pa (pixelAt c x y) <> 255.
Proof.
  intros H. unfold pixelAt, inside.
  case_ifs; [lia|cbn; lia].
Qed.

(** X11. On a canvas lower than 64 k or narrower than 56 k the detector
    answers slim whatever the pixels are: part of a probe region lies off
    the canvas and reads transparent. *)
Theorem isSlimSkin_small_canvas (c : Canvas) (k : Z) :
  1 <= k -> cheight c < 64 * k \/ cwidth c < 56 * k ->
  isSlimSkin c (64 * k) = Some true.
Proof.
  intros Hk Hsmall.
  destruct (isSlimSkin_probes c k Hk) as (b1 & b2 & b3 & b4 & E & H1 & H2 & H3 & H4).
  rewrite E. f_equal.
  destruct Hsmall as [Hh|Hw].
  - assert (b4 = true) as ->.
    { apply H4. exists (46 * k), (64 * k - 1).
      split; [lia|]. split; [lia|]. apply pixelAt_outside. lia. }
    rewrite !orb_true_r. reflexivity.
  - assert (b2 = true) as ->.
    { apply H2. exists (56 * k - 1), (20 * k).
      split; [lia|]. split; [lia|]. apply pixelAt_outside. lia. }
    rewrite !orb_true_r. reflexivity.
Qed.

Lemma isSlimSkin_small_canvas_witness :
  isSlimSkin (mkCanvas 64 32 (fun _ _ => mkPixel 255 255 255 255)) (64 * 1) = Some true.
Proof.
  apply (isSlimSkin_small_canvas (mkCanvas 64 32 (fun _ _ => mkPixel 255 255 255 255)) 1);
    [lia | left; cbn; lia].
Defined.

(** X10. The slim detector run on the upgraded canvas answers slim
    exactly when the original canvas has a pixel that is not fully opaque
    in the right arm's bottom face (columns 48 k .. 52 k, rows 16 k .. 20 k)
    or back face (columns 52 k .. 56 k, rows 20 k .. 32 k): the probes of
    the left arm read mirrored copies of the other half of those faces. *)
Theorem isSlimSkin_after_upgrade (c : Canvas) (k : Z) :
  1 <= k -> cwidth c = 64 * k -> 64 * k <= cheight c ->
  exists c' b,
    convertSkinTo1_8 c (64 * k) = Some c' /\
    isSlimSkin c' (64 * k) = Some b /\
    (b = true <->
     exists x y,
       ((48 * k <= x < 52 * k /\ 16 * k <= y < 20 * k) \/
        (52 * k <= x < 56 * k /\ 20 * k <= y < 32 * k)) /\
       pa (pixelAt c x y) <> 255).
Proof.
  intros Hk Hwidth Hheight.
  destruct (convertSkinTo1_8_scaled_pixels c k Hk Hwidth Hheight)
    as (c' & E & Wd & Ht & Pin & Pout).
  destruct (isSlimSkin_probes c' k Hk) as (b1 & b2 & b3 & b4 & Eb & H1 & H2 & H3 & H4).
  exists c', (b1 || b2 || b3 || b4).
  split; [exact E|]. split; [exact Eb|].
  assert (Hup : forall x y, y < 48 * k -> pixelAt c' x y = pixelAt c x y).
  { intros x y Hy. apply Pout, above_destinations, Hy. }
  assert (Harm : forall i j, 0 <= i < 2 * k -> 0 <= j < 4 * k ->
            pixelAt c' (42 * k + i) (48 * k + j) = pixelAt c (50 * k - 1 - i) (16 * k + j)).
  { intros i j Hi Hj.
    replace (42 * k + i) with (40 * k + (2 * k + i)) by lia.
    rewrite (Pin 48 16 4 4 40 48) by (cbn; tauto || lia).
    f_equal; lia. }
  assert (Hback : forall i j, 0 <= i < 2 * k -> 0 <= j < 12 * k ->
            pixelAt c' (46 * k + i) (52 * k + j) = pixelAt c (54 * k - 1 - i) (20 * k + j)).
  { intros i j Hi Hj.
    replace (46 * k + i) with (44 * k + (2 * k + i)) by lia.
    rewrite (Pin 52 20 4 12 44 52) by (cbn; tauto || lia).
    f_equal; lia. }
  rewrite !orb_true_iff, H1, H2, H3, H4. split.
  - intros [[[(x & y & Hx & Hy & Ha)|(x & y & Hx & Hy & Ha)]
            |(x & y & Hx & Hy & Ha)]|(x & y & Hx & Hy & Ha)].
    + rewrite Hup in Ha by lia. exists x, y. split; [lia|exact Ha].
    + rewrite Hup in Ha by lia. exists x, y. split; [lia|exact Ha].
    + replace x with (42 * k + (x - 42 * k)) in Ha by lia.
      replace y with (48 * k + (y - 48 * k)) in Ha by lia.
      rewrite Harm in Ha by lia. eexists _, _. split; [|exact Ha]. lia.
    + replace x with (46 * k + (x - 46 * k)) in Ha by lia.
      replace y with (52 * k + (y - 52 * k)) in Ha by lia.
      rewrite Hback in Ha by lia. eexists _, _. split; [|exact Ha]. lia.
  - intros (x & y & [[Hx Hy]|[Hx Hy]] & Ha).
    + destruct (Z_lt_le_dec x (50 * k)) as [Hlt|Hge].
      * left. right. exists (42 * k + (50 * k - 1 - x)), (48 * k + (y - 16 * k)).
        split; [lia|]. split; [lia|]. rewrite Harm by lia.
        replace (50 * k - 1 - (50 * k - 1 - x)) with x by lia.
        replace (16 * k + (y - 16 * k)) with y by lia. exact Ha.
      * left. left. left. exists x, y. split; [lia|]. split; [lia|].
        rewrite Hup by lia. exact Ha.
    + destruct (Z_lt_le_dec x (54 * k)) as [Hlt|Hge].
      * right. exists (46 * k + (54 * k - 1 - x)), (52 * k + (y - 20 * k)).
        split; [lia|]. split; [lia|]. rewrite Hback by lia.
        replace (54 * k - 1 - (54 * k - 1 - x)) with x by lia.
        replace (20 * k + (y - 20 * k)) with y by lia. exact Ha.
      * left. left. right. exists x, y. split; [lia|]. split; [lia|].
        rewrite Hup by lia. exact Ha.
Qed.

Lemma isSlimSkin_after_upgrade_witness :
  let c := mkCanvas 64 64 (fun _ _ => mkPixel 0 0 0 255) in
  exists c' b, convertSkinTo1_8 c (64 * 1) = Some c' /\ isSlimSkin c' (64 * 1) = Some b.
Proof.
  intros c.
  destruct (isSlimSkin_after_upgrade c 1 ltac:(lia) eq_refl ltac:(cbn; lia))
    as (c' & b & E & Eb & _).
  exists c', b. split; [exact E|exact Eb].
Defined.


(** ** Empty rectangles *)

Lemma getImageData_None (c : Canvas) (sx sy sw sh : Z) :
  getImageData c sx sy sw sh = None <-> sw = 0 \/ sh = 0.
Proof.
  unfold getImageData.
  destruct (Z.eqb_spec sw 0), (Z.eqb_spec sh 0); cbn [orb]; split;
    try discriminate; try tauto; intros [?|?]; contradiction.
Qed.

Lemma copyImage_None (c : Canvas) (sX sY w h dX dY : Z) (flipHorizontal : bool) :
  copyImage c sX sY w h dX dY flipHorizontal = None <-> w = 0 \/ h = 0.
Proof.
  rewrite <- (getImageData_None c sX sY w h). unfold copyImage.
  destruct (getImageData c sX sY w h); split; congruence.
Qed.

Lemma hasTransparency_None (c : Canvas) (x0 y0 w h : Z) :
  hasTransparency c x0 y0 w h = None <-> w = 0 \/ h = 0.
Proof.
  rewrite <- (getImageData_None c x0 y0 w h). unfold hasTransparency.
  destruct (getImageData c x0 y0 w h); split; congruence.
Qed.

Ltac returning_copy :=
  match goal with
  | |- context [ copyImage ?c ?sX ?sY ?w ?h ?dX ?dY true ] =>
      let c' := fresh "c" in
      let E := fresh "E" in
      destruct (copyImage c sX sY w h dX dY true) as [c'|] eqn:E;
      [rewrite ?bindCanvas_Some | apply copyImage_None in E; lia]
  end.

Ltac returning_probe :=
  match goal with
  | |- context [ hasTransparency ?c ?x ?y ?w ?h ] =>
      let b := fresh "b" in
      let E := fresh "E" in
      destruct (hasTransparency c x y w h) as [b|] eqn:E;
      [rewrite ?orElse_Some | apply hasTransparency_None in E; lia]
  end.

(** X7. At a width of 64 k the upgrade and the slim detector throw (the
    empty-rectangle error of [getImageData]) exactly when k = 0; for every
    other k both return. *)
Theorem scale_zero_throws (c : Canvas) (k : Z) :
  (convertSkinTo1_8 c (64 * k) = None <-> k = 0) /\
  (isSlimSkin c (64 * k) = None <-> k = 0).
Proof.
  split; split.
  - intros H. destruct (Z.eq_dec k 0) as [|Hk]; [assumption|exfalso].
    rewrite convertSkinTo1_8_scaled_unfold in H.
    revert H. do 12 returning_copy. discriminate.
  - intros ->. reflexivity.
  - intros H. destruct (Z.eq_dec k 0) as [|Hk]; [assumption|exfalso].
    unfold isSlimSkin in H. rewrite computeSkinScale_multiple in H. cbv zeta in H.
    revert H. do 4 returning_probe.
    repeat match goal with b : bool |- _ => destruct b end; discriminate.
  - intros ->. reflexivity.
Qed.

End AtlasMore.

(** ** The texture layout of the boxes *)

(** X13. In either model type the 72 faces of the twelve boxes of the
    skeleton lie inside the 64 x 64 atlas and no two of them overlap,
    whatever the state the model type was set from. *)
Theorem skin_boxes_share_no_texel (v : ModelType) (s : SkinObject) :
  let faces := flat_map (faceRects 64 64) (skinBoxUVs (set_modelType v s)) in
  length faces = 72%nat /\
  pairwiseDisjoint faces = true /\
  forallb (inCanvas 64 64) faces = true.
Proof.
  destruct s as [fl ra ra2 rp la la2 lp hc].
  destruct v; repeat split; vm_compute; reflexivity.
Qed.

(** X14. The cape box and the wing box of the elytra share the 64 x 32
    cape texture without overlap, and the faces of the ear box lie inside
    the 14 x 7 ears texture without overlap. *)
Theorem accessory_boxes_fit :
  let back := faceRects 64 32 (cape_uv newCapeObject) ++ faceRects 64 32 wingBoxUV in
  let ears := faceRects 14 7 earBoxUV in
  length back = 12%nat /\ pairwiseDisjoint back = true /\ forallb (inCanvas 64 32) back = true /\
  length ears = 6%nat /\ pairwiseDisjoint ears = true /\ forallb (inCanvas 14 7) ears = true.
Proof. repeat split; vm_compute; reflexivity. Qed.

(** X12. The copy rules against the boxes of the skeleton: the first six
    rules copy the top, bottom, left, front, right and back face of the
    right leg's inner box onto the same face of the left leg's inner box,
    with left and right exchanged; the last six do the same from the right
    arm to the left arm of the default model. *)
Theorem upgradeRules_fill_left_limbs :
  let order := [FaceTop; FaceBottom; FaceLeft; FaceFront; FaceRight; FaceBack] in
  let s := newSkinObject in
  Forall2 (fun rule f => copiesFace rightLegUV leftLegUV rule f = true)
          (take 6 upgradeRules) order /\
  Forall2 (fun rule f => copiesFace (layer_uv (rightArmMesh s)) (layer_uv (leftArmMesh s)) rule f = true)
          (drop 6 upgradeRules) order.
Proof.
  split; repeat constructor.
Qed.

(** ** Elements rotated about a supported axis *)

Section SupportedAxes.
Open Scope R_scope.

Lemma double_angle (theta : R) :
  cos theta = 1 - 2 * (sin (theta / 2) * sin (theta / 2)) /\
  sin theta = 2 * sin (theta / 2) * cos (theta / 2) /\
  sin (theta / 2) * sin (theta / 2) + cos (theta / 2) * cos (theta / 2) = 1.
Proof.
  split; [|split].
  - replace theta with (2 * (theta / 2)) at 1 by field. rewrite cos_2a_sin. ring.
  - replace theta with (2 * (theta / 2)) at 1 by field. apply sin_2a.
  - pose proof (sin2_cos2 (theta / 2)) as H. unfold Rsqr in H. exact H.
Qed.

(** X15. An element rotated about "x", "y" or "z" keeps the geometry and
    the uv attribute of the unrotated element; its orientation is the
    rotation by the declared angle about that axis, and its pose maps every
    point as that rotation about the pivot, so the pivot itself stays in
    place. *)
Theorem elementMesh_supported_axis (texture : Texture) (from to origin : Q * Q * Q)
    (angle : Q) (axisStr : string) (faces : FaceUVs) :
  In axisStr ["x"; "y"; "z"]%string ->
  let theta := Q2R angle * PI / 180 in
  let pivot := toVector3 origin in
  let plain := elementMesh texture (mkElement from to None faces) in
  let mesh := elementMesh texture
                (mkElement from to (Some (mkElementRotation angle axisStr origin)) faces) in
  mesh_geometry mesh = mesh_geometry plain /\
  mesh_uv mesh = mesh_uv plain /\
  rotationMatrix (mesh_quaternion mesh)
    = (if String.eqb axisStr "x" then makeRotationX theta
       else if String.eqb axisStr "y" then makeRotationY theta
       else makeRotationZ theta) /\
  (forall v, localToParent (mesh_position mesh) (mesh_quaternion mesh) v
             = add (localToParent zeroVector (mesh_quaternion mesh) (sub v pivot)) pivot) /\
  localToParent (mesh_position mesh) (mesh_quaternion mesh) pivot = pivot.
Proof.
  intros Hin theta pivot plain mesh.
  destruct (double_angle theta) as (Hc & Hs & H1).
  destruct from as [[from0 from1] from2], to as [[to0 to1] to2].
  split; [reflexivity|]. split; [reflexivity|].
  subst mesh. unfold elementMesh.
  cbn [el_from el_to el_faces el_rotation rot_angle rot_axis rot_origin].
  fold theta. fold pivot.
  cbn [mesh_position mesh_quaternion mesh_geometry mesh_uv mesh_map].
  cbn [In] in Hin. destruct Hin as [<-|[<-|[<-|[]]]];
    cbn [axisVector String.eqb Ascii.eqb Bool.eqb];
    unfold localToParent, applyAxisAngle, applyQuaternion, rotateOnAxis, multiplyQuaternions,
      setFromAxisAngle, sub, add, zeroVector, identityQuaternion, rotationMatrix,
      makeRotationX, makeRotationY, makeRotationZ;
    cbn [vx vy vz qx qy qz qw];
    set (s := sin (theta / 2)) in *; set (c := cos (theta / 2)) in *;
    rewrite Hc, Hs; destruct pivot as [p1 p2 p3]; cbn [vx vy vz].
  all: assert (E1 : (s * s + c * c) * p1 = p1) by (rewrite H1; ring).
  all: assert (E2 : (s * s + c * c) * p2 = p2) by (rewrite H1; ring).
  all: assert (E3 : (s * s + c * c) * p3 = p3) by (rewrite H1; ring).
  all: split; [repeat (f_equal; try ring)|].
  all: split; [intros [v1 v2 v3]; cbn [vx vy vz]; f_equal; lra|f_equal; lra].
Qed.

End SupportedAxes.

Lemma elementMesh_supported_axis_witness :
  let face := mkFace (0, 0, 16, 16)%Q None in
  let faces := mkFaceUVs face face face face face face in
  let mesh := elementMesh (mkTexture 0)
                (mkElement (0, 0, 0)%Q (2, 2, 2)%Q
                   (Some (mkElementRotation 90%Q "y" (1, 0, 1)%Q)) faces) in
  localToParent (mesh_position mesh) (mesh_quaternion mesh) (toVector3 (1, 0, 1)%Q)
  = toVector3 (1, 0, 1)%Q.
Proof.
  intros face faces mesh.
  apply (elementMesh_supported_axis (mkTexture 0) (0, 0, 0)%Q (2, 2, 2)%Q (1, 0, 1)%Q 90%Q "y" faces).
  cbn. auto.
Defined.

(** ** The list of meshes of a model object *)

Lemma updateModel_fold (texture : Texture) (els : list Element) (children : list Mesh) :
  foldl (fun children element => children ++ [elementMesh texture element]) children els
  = children ++ map (elementMesh texture) els.
Proof.
  revert children. induction els as [|e els IH]; intros children; cbn [foldl map].
  - rewrite app_nil_r. reflexivity.
  - rewrite IH, <- app_assoc. reflexivity.
Qed.

(** X16. [updateModel] only ever appends: it keeps the children it finds
    and adds one mesh per element, in document order (none for a null
    document or one without [elements]); a second call adds the second
    document's meshes after the first's. *)
Theorem updateModel_appends (children : list Mesh) (json : option Document)
    (texture : Texture) :
  updateModel children json texture = children ++ updateModel [] json texture /\
  updateModel [] json texture
    = map (elementMesh texture) (default [] (json ≫= elements)) /\
  forall (json' : option Document) (texture' : Texture),
    updateModel (updateModel children json texture) json' texture'
    = children ++ updateModel [] json texture ++ updateModel [] json' texture'.
Proof.
  assert (H : forall ch j t, updateModel ch j t
                             = ch ++ map (elementMesh t) (default [] (j ≫= elements))).
  { intros ch [[[els|]]|] t; cbn; rewrite ?app_nil_r; try reflexivity.
    apply updateModel_fold. }
  split; [|split].
  - rewrite (H children), (H []). reflexivity.
  - apply (H []).
  - intros json' texture'.
    rewrite (H (updateModel _ _ _)), (H children), (H [] json), (H [] json').
    cbn [app]. rewrite <- app_assoc. reflexivity.
Qed.

(** ** The two corners of an element *)

Section Corners.
Open Scope Q_scope.

Lemma Qabs_swap (a b : Q) : Qabs (a - b) == Qabs (b - a).
Proof.
  rewrite <- (Qabs_opp (a - b)). apply Qabs_wd. ring.
Qed.

(** X17. The order of the two corners of an element does not matter:
    exchanging [from] and [to] gives a geometry with the same vertices. *)
Theorem elementMesh_corner_order (texture : Texture) (from to : Q * Q * Q)
    (rotation : option ElementRotation) (faces : FaceUVs) :
  Forall2 pointEq
    (vertices (mesh_geometry (elementMesh texture (mkElement from to rotation faces))))
    (vertices (mesh_geometry (elementMesh texture (mkElement to from rotation faces)))).
Proof.
  destruct from as [[from0 from1] from2], to as [[to0 to1] to2].
  unfold elementMesh. cbn [el_from el_to el_rotation el_faces].
  destruct rotation as [r|]; cbn [mesh_geometry].
  all: unfold newBoxGeometry, translate;
    cbn [vertices map app buildPlane flat_map setComponent px py pz].
  all: pose proof (Qabs_swap to0 from0) as E0;
    pose proof (Qabs_swap to1 from1) as E1;
    pose proof (Qabs_swap to2 from2) as E2.
  all: repeat (constructor;
         [unfold pointEq; cbn [px py pz]; rewrite ?E0, ?E1, ?E2;
          repeat split; unfold Qdiv; change (/ 1)%Q with 1%Q; change (/ 2)%Q with (1 # 2)%Q; ring|]).
  all: constructor.
Qed.

End Corners.

(** ** The slim toggle *)

(** X18. The state after setting the model type depends only on the last
    value set; the getter returns it, and the toggle leaves the objects
    mounted on the head and the height of both arm pivots alone. *)
Theorem set_modelType_last_write (u v : ModelType) (s : SkinObject) :
  set_modelType v (set_modelType u s) = set_modelType v s /\
  get_modelType (set_modelType v s) = v /\
  headChildren (set_modelType v s) = headChildren s /\
  vy (rightArmPivot (set_modelType v s)) = vy (rightArmPivot s) /\
  vy (leftArmPivot (set_modelType v s)) = vy (leftArmPivot s).
Proof.
  destruct s as [fl ra ra2 rp la la2 lp hc].
  destruct u, v; repeat split.
Qed.

(** ** The accessories of a fresh player *)

Lemma mountBlock_both place entry texture name field target :
  mountBlock place entry texture name field target
  = let mounted := match entry with
                   | Some (Some canvas) => Some (place (newJsonModelObject texture (model canvas)) name)
                   | _ => None
                   end in
    (match mounted with Some o => Some o | None => field end, target ++ option_list mounted).
Proof.
  destruct entry as [[canvas|]|]; cbn; rewrite ?app_nil_r; reflexivity.
Qed.

Lemma omap_cons_app {A B : Type} (f : A -> option B) (x : A) (l : list A) :
  omap f (x :: l) = option_list (f x) ++ omap f l.
Proof. cbn. destruct (f x); reflexivity. Qed.

(** X19. The hats of a fresh player: the base hat comes first among the
    model objects of the head, then one object per non-null entry among the
    first nine of [hatCanvases], in order, the ninth named "hat8" like the
    eighth; each sits at (8, 8, 8), turned by PI about y, and is
    visible. *)
Theorem newPlayerObject_head_children st ct ht hm sbt sbm et
    (hatCanvases sbCanvases : list (option AccessoryCanvas)) :
  let p := newPlayerObject st ct ht hm sbt sbm et hatCanvases sbCanvases in
  hat p = placeHat (newJsonModelObject ht hm) "hat" /\
  headChildren (skin p)
    = hat p :: omap (fun '(i, name) => mountedHat ht (hatCanvases !! i) name) hatBlocks /\
  Forall (fun o => jm_position o = mkVector3 8 8 8 /\ vy (jm_rotation o) = PI /\
                   jm_visible o = true)
         (headChildren (skin p)).
Proof.
  intros p.
  assert (Hc : headChildren (skin p)
    = hat p :: omap (fun '(i, name) => mountedHat ht (hatCanvases !! i) name) hatBlocks).
  { unfold p, newPlayerObject. cbv zeta. repeat (rewrite mountBlock_both; cbv beta iota zeta).
    cbn [headChildren skin hat]. unfold hatBlocks. rewrite !omap_cons_app.
    cbn [omap app]. unfold mountedHat. rewrite <- !app_assoc, app_nil_r. reflexivity. }
  assert (Hh : hat p = placeHat (newJsonModelObject ht hm) "hat").
  { unfold p, newPlayerObject. cbv zeta.
    repeat (rewrite mountBlock_both; cbv beta iota zeta). reflexivity. }
  split; [exact Hh|]. split; [exact Hc|].
  rewrite Hc, Hh. constructor; [repeat split|].
  apply list.Forall_forall. intros o Ho.
  apply list_elem_of_omap in Ho. destruct Ho as ([i name] & _ & Ho).
  unfold mountedHat in Ho. destruct (hatCanvases !! i) as [[canvas|]|]; try discriminate.
  inversion Ho. repeat split.
Qed.

(** X20. The shoulder buddies of a fresh player: the first seven blocks
    fill the field of their own index, [shoulderBuddy8] holds the ninth
    entry's object when there is one and else the eighth's,
    [shoulderBuddy9] stays null, and the player's model objects are the
    mounted entries in order followed by the base shoulder buddy. *)
Theorem newPlayerObject_shoulderBuddies st ct ht hm sbt sbm et
    (hatCanvases sbCanvases : list (option AccessoryCanvas)) :
  let p := newPlayerObject st ct ht hm sbt sbm et hatCanvases sbCanvases in
  let mounted i name := mountedShoulderBuddy sbt (sbCanvases !! i) name in
  shoulderBuddy1 p = mounted 0%nat "shoulderBuddy1"%string /\
  shoulderBuddy2 p = mounted 1%nat "shoulderBuddy2"%string /\
  shoulderBuddy3 p = mounted 2%nat "shoulderBuddy3"%string /\
  shoulderBuddy4 p = mounted 3%nat "shoulderBuddy4"%string /\
  shoulderBuddy5 p = mounted 4%nat "shoulderBuddy5"%string /\
  shoulderBuddy6 p = mounted 5%nat "shoulderBuddy6"%string /\
  shoulderBuddy7 p = mounted 6%nat "shoulderBuddy7"%string /\
  shoulderBuddy8 p = match mounted 8%nat "shoulderBuddy8"%string with
                     | Some o => Some o
                     | None => mounted 7%nat "shoulderBuddy8"%string
                     end /\
  shoulderBuddy9 p = None /\
  children p = omap (fun '(i, name) => mounted i name) shoulderBuddyBlocks ++ [shoulderBuddy p].
Proof.
  intros p mounted. unfold p, newPlayerObject. cbv zeta. repeat (rewrite mountBlock_both; cbv beta iota zeta).
  cbn [shoulderBuddy1 shoulderBuddy2 shoulderBuddy3 shoulderBuddy4 shoulderBuddy5
       shoulderBuddy6 shoulderBuddy7 shoulderBuddy8 shoulderBuddy9 shoulderBuddy children].
  unfold shoulderBuddyBlocks. rewrite !omap_cons_app. cbn [omap app].
  unfold mounted, mountedShoulderBuddy.
  repeat split;
    [ repeat match goal with
      | |- context [ match ?l !! ?i with _ => _ end ] => destruct (l !! i) as [[?|]|]
      end; reflexivity ..
    | rewrite <- !app_assoc; reflexivity ].
Qed.

(** ** The camera distance *)

Section CameraDistance.
Open Scope R_scope.

Lemma cameraDistance_range (fov zoom : R) : 10 <= cameraDistance fov zoom <= 256.
Proof.
  unfold cameraDistance. cbv zeta.
  destruct (Rlt_dec _ 10); [lra|]. destruct (Rgt_dec _ 256); lra.
Qed.

(** X21. For a field of view between 0 and 180 degrees, a positive zoom
    and a camera away from the origin, [adjustCameraDistance] moves the
    camera along its own direction to the computed distance, which lies
    between 10 and 256. *)
Theorem adjustCameraDistance_length (fov zoom : R) (position : Vector3) :
  0 < fov < 180 -> 0 < zoom -> position <> zeroVector ->
  let position' := adjustCameraDistance fov zoom position in
  10 <= cameraDistance fov zoom <= 256 /\
  vectorLength position' = cameraDistance fov zoom /\
  exists scale, 0 < scale /\ position' = multiplyScalar position scale.
Proof.
  intros _ _ Hp position'.
  pose proof (cameraDistance_range fov zoom) as Hd.
  set (d := cameraDistance fov zoom) in *.
  destruct position as [x y z].
  assert (Hsq : 0 < x * x + y * y + z * z).
  { destruct (Req_dec x 0) as [->|Hx].
    - destruct (Req_dec y 0) as [->|Hy].
      + destruct (Req_dec z 0) as [->|Hz]; [exfalso; apply Hp; reflexivity|nra].
      + nra.
    - nra. }
  assert (Hl : 0 < vectorLength (mkVector3 x y z)).
  { unfold vectorLength. cbn [vx vy vz]. apply sqrt_lt_R0. exact Hsq. }
  set (l := vectorLength (mkVector3 x y z)) in *.
  assert (Hk : 0 < d / l) by (apply Rdiv_lt_0_compat; lra).
  split; [exact Hd|]. split.
  - unfold position', adjustCameraDistance. cbv zeta. fold d. fold l.
    unfold vectorLength, multiplyScalar. cbn [vx vy vz].
    replace (x * (d / l) * (x * (d / l)) + y * (d / l) * (y * (d / l)) + z * (d / l) * (z * (d / l)))
      with ((d / l) * (d / l) * (x * x + y * y + z * z)) by ring.
    rewrite sqrt_mult by nra. rewrite sqrt_square by lra.
    change (sqrt (x * x + y * y + z * z)) with l.
    field. lra.
  - exists (d / l). split; [exact Hk|reflexivity].
Qed.

Lemma adjustCameraDistance_length_witness :
  vectorLength (adjustCameraDistance 50 0.9 (mkVector3 0 0 1)) = cameraDistance 50 0.9.
Proof.
  apply (adjustCameraDistance_length 50 0.9 (mkVector3 0 0 1)); [lra | lra |].
  unfold zeroVector. intros E. inversion E. lra.
Defined.

(** X22. The camera distance never grows when the field of view or the
    zoom grows (field of view between 0 and 180 degrees, positive
    zoom). *)
Theorem cameraDistance_monotone (fov fov' zoom zoom' : R) :
  0 < fov -> fov <= fov' -> fov' < 180 -> 0 < zoom -> zoom <= zoom' ->
  cameraDistance fov' zoom' <= cameraDistance fov zoom.
Proof.
  intros Hf Hff Hf' Hz Hzz.
  assert (Ht : 0 < tan (fov / 180 * PI / 2)).
  { apply tan_gt_0; pose proof PI_RGT_0; nra. }
  assert (Htt : tan (fov / 180 * PI / 2) <= tan (fov' / 180 * PI / 2)).
  { destruct Hff as [Hlt | ->]; [|lra].
    left. apply tan_increasing; pose proof PI_RGT_0; nra. }
  assert (Hraw : 16.5 / tan (fov' / 180 * PI / 2) / zoom'
                 <= 16.5 / tan (fov / 180 * PI / 2) / zoom).
  { set (t := tan (fov / 180 * PI / 2)) in *. set (t' := tan (fov' / 180 * PI / 2)) in *.
    unfold Rdiv. rewrite !Rmult_assoc. apply Rmult_le_compat_l; [lra|].
    rewrite <- !Rinv_mult.
    apply Rinv_le_contravar; [apply Rmult_lt_0_compat; lra|].
    apply Rmult_le_compat; lra. }
  unfold cameraDistance. cbv zeta.
  repeat match goal with |- context [ Rlt_dec ?a ?b ] => destruct (Rlt_dec a b) end;
  repeat match goal with |- context [ Rgt_dec ?a ?b ] => destruct (Rgt_dec a b) end; lra.
Qed.

Lemma cameraDistance_monotone_witness :
  cameraDistance 70 1 <= cameraDistance 50 0.9.
Proof.
  apply (cameraDistance_monotone 50 70 0.9 1); lra.
Defined.

End CameraDistance.

(** ** The render loop of the viewer *)

Lemma handle_invariant (s : RenderLoop) (e : Event) :
  loopInvariant s -> loopInvariant (handle s e).
Proof.
  unfold loopInvariant.
  destruct s as [p d l [id|] n], e as [|[|]| | |]; destruct p, d, l; cbn; intros H;
    try discriminate H; reflexivity.
Qed.

Lemma handle_disposed (s : RenderLoop) (e : Event) :
  disposed s = true -> disposed (handle s e) = true.
Proof.
  destruct s as [p d l [id|] n], e as [|[|]| | |]; destruct p, l; cbn; intros ->; reflexivity.
Qed.

(** X23. After the constructor and any sequence of frames, assignments of
    [renderPaused], [dispose] and context events, a frame is requested
    exactly when the viewer is not paused, not disposed and its context is
    not lost; once disposed it stays disposed and never requests a frame
    again. *)
Theorem render_loop_requests (paused : bool) (events : list Event) :
  let s := foldl handle (construct paused) events in
  (animationID s <> None <->
   renderPaused s = false /\ disposed s = false /\ contextLost s = false) /\
  (forall later : list Event,
     disposed s = true ->
     disposed (foldl handle s later) = true /\ animationID (foldl handle s later) = None).
Proof.
  assert (Hinv : forall evs s, loopInvariant s -> loopInvariant (foldl handle s evs)).
  { induction evs as [|e evs IH]; intros s H; cbn [foldl]; [exact H|].
    apply IH, handle_invariant, H. }
  assert (Hdis : forall evs s, disposed s = true -> disposed (foldl handle s evs) = true).
  { induction evs as [|e evs IH]; intros s H; cbn [foldl]; [exact H|].
    apply IH, handle_disposed, H. }
  assert (Hiff : forall s, loopInvariant s ->
            (animationID s <> None <->
             renderPaused s = false /\ disposed s = false /\ contextLost s = false)).
  { intros s H. unfold loopInvariant in H.
    destruct s as [p d l [id|] n]; destruct p, d, l; cbn in *; try discriminate H;
      split; try congruence; intros; try tauto;
      repeat match goal with H : _ /\ _ |- _ => destruct H end; discriminate. }
  assert (H0 : loopInvariant (construct paused)) by (destruct paused; reflexivity).
  intros s. split.
  - apply Hiff, Hinv, H0.
  - intros later Hd.
    pose proof (Hdis later s Hd) as Hd'.
    split; [exact Hd'|].
    pose proof (Hiff _ (Hinv later s (Hinv events _ H0))) as Hl.
    destruct (animationID (foldl handle s later)) as [id|]; [|reflexivity].
    destruct Hl as [Hl _]. destruct (Hl ltac:(discriminate)) as (_ & Hx & _). congruence.
Qed.

Lemma render_loop_requests_witness :
  animationID (foldl handle (foldl handle (construct false) [Frame; Dispose])
                            [SetRenderPaused false; ContextRestored]) = None.
Proof.
  destruct (render_loop_requests false [Frame; Dispose]) as [_ H].
  apply (H [SetRenderPaused false; ContextRestored]). reflexivity.
Defined.
